(** * Azure Data Studio extension glue: books, SQL projects, Arc tree

    A shallow embedding of the parts of
    [extensions/sql-database-projects/src/controllers/projectController.ts]
    (classes [ProjectsController] and [BookTreeViewProvider]) and of
    [extensions/arc/src/ui/tree/azureArcTreeDataProvider.ts]
    that the specification speaks about, with the properties proved
    against them.

    Conventions.
    - A value produced by [yaml.safeLoad] is a [Yaml] term.
    - A JavaScript call that may throw returns an [Outcome]; the payload of
      [Thrown] is the text the surrounding code would display
      ([e instanceof Error ? e.message : e]).
    - Mutable fields of a class are fields of a state record that the
      methods take and give back. *)

From Stdlib Require Import String Ascii ZArith List Lia Bool.
From Stdlib Require Import DecimalString DecimalNat DecimalFacts.
From stdpp Require Import gmap strings list.
Import ListNotations.
Open Scope string_scope.
Open Scope list_scope.

(** ** Exceptions *)

Inductive Outcome (A : Type) : Type :=
| Returned (a : A)
| Thrown (message : string).
Arguments Returned {A} a.
Arguments Thrown {A} message.

#[global] Instance Outcome_ret : MRet Outcome := fun A a => Returned a.

#[global] Instance Outcome_bind : MBind Outcome := fun A B k o =>
  match o with
  | Returned a => k a
  | Thrown e => Thrown e
  end.

Definition returned {A} (o : Outcome A) : bool :=
  match o with Returned _ => true | Thrown _ => false end.

(** [try { body } catch (e) { throw handler }] *)
Definition rethrow {A} (body : Outcome A) (handler : string) : Outcome A :=
  match body with
  | Returned a => Returned a
  | Thrown _ => Thrown handler
  end.

(** ** YAML documents as JavaScript values *)

(** What [yaml.safeLoad] gives: [null] (also for an empty document),
    booleans, numbers (the integers among them), strings, sequences and
    mappings with their entries in document order. *)

Unset Elimination Schemes.
Inductive Yaml : Type :=
| YNull
| YBool (b : bool)
| YNum (n : Z)
| YStr (s : string)
| YSeq (items : list Yaml)
| YMap (fields : list (string * Yaml)).
Set Elimination Schemes.

(** The induction principle that also gives the hypothesis for the values
    nested under a sequence or a mapping. *)
Definition Yaml_nested_ind (P : Yaml -> Prop)
  (Hnull : P YNull)
  (Hbool : forall b, P (YBool b))
  (Hnum : forall n, P (YNum n))
  (Hstr : forall s, P (YStr s))
  (Hseq : forall items, Forall P items -> P (YSeq items))
  (Hmap : forall fields, Forall (fun kv => P (snd kv)) fields -> P (YMap fields)) :
  forall v, P v :=
  fix rec (v : Yaml) : P v :=
    match v with
    | YNull => Hnull
    | YBool b => Hbool b
    | YNum n => Hnum n
    | YStr s => Hstr s
    | YSeq items =>
        Hseq items
          ((fix all (l : list Yaml) : Forall P l :=
              match l with
              | [] => @List.Forall_nil _ P
              | x :: l' => @List.Forall_cons _ P x l' (rec x) (all l')
              end) items)
    | YMap fields =>
        Hmap fields
          ((fix all (l : list (string * Yaml)) : Forall (fun kv => P (snd kv)) l :=
              match l with
              | [] => @List.Forall_nil _ (fun kv => P (snd kv))
              | kv :: l' => @List.Forall_cons _ (fun kv => P (snd kv)) kv l' (rec (snd kv)) (all l')
              end) fields)
    end.

(** First binding of a key, the way a property read sees a mapping. *)
Fixpoint assoc (k : string) (fields : list (string * Yaml)) : option Yaml :=
  match fields with
  | [] => None
  | (k', v) :: rest => if String.eqb k' k then Some v else assoc k rest
  end.

(** [v.k] for the keys this code reads ([sections], [url], [external],
    [title]): reading a property of [null] or [undefined] throws, a
    mapping answers with its binding, every other value has no such
    property. [None] is JavaScript's [undefined]. *)
Definition member (v : Yaml) (k : string) : Outcome (option Yaml) :=
  match v with
  | YNull => Thrown ("Cannot read property '" +:+ k +:+ "' of null")
  | YMap fields => Returned (assoc k fields)
  | _ => Returned None
  end.

(** JavaScript truthiness. *)
Definition truthy (v : option Yaml) : bool :=
  match v with
  | None | Some YNull => false
  | Some (YBool b) => b
  | Some (YNum n) => negb (n =? 0)%Z
  | Some (YStr s) => negb (String.eqb s EmptyString)
  | Some (YSeq _) | Some (YMap _) => true
  end.

Definition isArray (v : option Yaml) : bool :=
  match v with Some (YSeq _) => true | _ => false end.

(** [acc.concat(val)]: an array argument is spread, anything else is
    appended as one element. *)
Definition js_concat (acc : list Yaml) (val : Yaml) : list Yaml :=
  match val with
  | YSeq items => acc ++ items
  | _ => acc ++ [val]
  end.

(** ** Message formatting ([vscode-nls]' [localize]) *)

(** How [localize] renders the argument put in place of [{0}]: strings as
    they are, numbers, booleans, [null] and [undefined] through [String],
    anything else leaves the placeholder. *)
Definition format_arg (a : option Yaml) : string :=
  match a with
  | None => "undefined"
  | Some YNull => "null"
  | Some (YBool true) => "true"
  | Some (YBool false) => "false"
  | Some (YNum n) => NilZero.string_of_int (Z.to_int n)
  | Some (YStr s) => s
  | Some (YSeq _) | Some (YMap _) => "{0}"
  end.

(** [localize('Invalid toc.yml', 'Error: {0} has an incorrect toc.yml file', title)] *)
Definition invalid_toc_message (title : option Yaml) : string :=
  "Error: " +:+ format_arg title +:+ " has an incorrect toc.yml file".

(** [localize('missingFileError', 'Missing file : {0}', title)] *)
Definition missing_file_message (title : option Yaml) : string :=
  "Missing file : " +:+ format_arg title.

(** ** [BookTreeViewProvider.flattenArray] *)

(** [array.reduce((acc, val) => Array.isArray(val.sections)
       ? acc.concat(val).concat(this.flattenArray(val.sections, title))
       : acc.concat(val), [])]
    inside [try { } catch (e) { throw localize(...) }].

    The recursion goes through the value bound to [sections] inside the
    element, so the search for that binding is written in place. *)
Fixpoint flattenArray (array : Yaml) (title : option Yaml) {struct array}
  : Outcome (list Yaml) :=
  match array with
  | YSeq items =>
      (fix reduce (rest : list Yaml) (acc : list Yaml) {struct rest}
         : Outcome (list Yaml) :=
         match rest with
         | [] => Returned acc
         | val :: rest' =>
             match val with
             | YNull => Thrown (invalid_toc_message title)
             | YMap fields =>
                 match
                   (fix sections (fs : list (string * Yaml))
                      : option (Outcome (list Yaml)) :=
                      match fs with
                      | [] => None
                      | (k, v) :: fs' =>
                          if String.eqb k "sections"
                          then match v with
                               | YSeq _ => Some (flattenArray v title)
                               | _ => None
                               end
                          else sections fs'
                      end) fields
                 with
                 | Some (Returned sub) => reduce rest' (js_concat acc val ++ sub)
                 | Some (Thrown _) => Thrown (invalid_toc_message title)
                 | None => reduce rest' (js_concat acc val)
                 end
             | _ => reduce rest' (js_concat acc val)
             end
         end) items []
  | _ => Thrown (invalid_toc_message title)
  end.

(** The callback of the [reduce], as the source writes it. *)
Definition flatten_step (title : option Yaml) (acc : list Yaml) (val : Yaml)
  : Outcome (list Yaml) :=
  sections ← member val "sections";
  if isArray sections
  then match sections with
       | Some nested =>
           sub ← flattenArray nested title;
           Returned (js_concat acc val ++ sub)
       | None => Returned (js_concat acc val)
       end
  else Returned (js_concat acc val).

(** [reduce] with a callback that may throw. *)
Fixpoint reduce {A B} (f : A -> B -> Outcome A) (l : list B) (acc : A) : Outcome A :=
  match l with
  | [] => Returned acc
  | x :: l' => acc' ← f acc x; reduce f l' acc'
  end.

(** The nodes directly under a node: its [sections] when that is a list. *)
Definition sections_of (v : Yaml) : list Yaml :=
  match v with
  | YMap fields =>
      match assoc "sections" fields with
      | Some (YSeq l) => l
      | _ => []
      end
  | _ => []
  end.

(** A TOC node has [sections] absent or a list of TOC nodes: it is a
    mapping of that kind, or a scalar, which has no properties. *)
Fixpoint valid_node (v : Yaml) : bool :=
  match v with
  | YMap fields =>
      (fix sections (fs : list (string * Yaml)) : bool :=
         match fs with
         | [] => true
         | (k, x) :: fs' =>
             if String.eqb k "sections"
             then match x with
                  | YSeq l => forallb valid_node l
                  | _ => false
                  end
             else sections fs'
         end) fields
  | YBool _ | YNum _ | YStr _ => true
  | YNull | YSeq _ => false
  end.

Definition valid_toc (doc : list Yaml) : bool := forallb valid_node doc.

(** Depth-first pre-order in the words of the specification: a node, then
    recursively its own sections, then the nodes after it. *)
Inductive Preorder : list Yaml -> list Yaml -> Prop :=
| Preorder_nil : Preorder [] []
| Preorder_cons n rest sub out :
    Preorder (sections_of n) sub ->
    Preorder rest out ->
    Preorder (n :: rest) (n :: sub ++ out).

(** The nodes of the tree below a list of roots. *)
Inductive toc_node (roots : list Yaml) : Yaml -> Prop :=
| toc_root n : In n roots -> toc_node roots n
| toc_nested p n : toc_node roots p -> In n (sections_of p) -> toc_node roots n.

Definition descendant (p d : Yaml) : Prop := toc_node (sections_of p) d.

Definition flattens_to_preorder (title : option Yaml) (l : list Yaml) : Prop :=
  exists out, flattenArray (YSeq l) title = Returned out /\ Preorder l out.


(** ** Strings *)

(** [s.endsWith(suffix)] *)
Definition endsWith (s suffix : string) : bool :=
  let n := String.length s in
  let m := String.length suffix in
  (m <=? n)%nat && String.eqb (substring (n - m) m s) suffix.

(** [s.includes(pattern)] *)
Definition includes (s pattern : string) : bool :=
  match index 0 pattern s with Some _ => true | None => false end.

(** [s.replace(/\\/g, '/')] *)
Fixpoint slashes (s : string) : string :=
  match s with
  | EmptyString => EmptyString
  | String c rest =>
      String (if Ascii.eqb c "\"%char then "/"%char else c) (slashes rest)
  end.

(** The replacement text of [String.prototype.replace] for a pattern
    without capture groups: [$$] stands for a dollar sign, [$&] for the
    matched text, [$`] and [$'] for what precedes and follows the match;
    any other character, a dollar sign before anything else included,
    stands for itself. *)
Fixpoint expand_replacement (replacement before matched after : string) : string :=
  match replacement with
  | EmptyString => EmptyString
  | String d tail =>
      if Ascii.eqb d "$" then
        match tail with
        | EmptyString => String d EmptyString
        | String c rest =>
            if Ascii.eqb c "$" then
              String "$" (expand_replacement rest before matched after)
            else if Ascii.eqb c "&" then
              matched +:+ expand_replacement rest before matched after
            else if Ascii.eqb c "`" then
              before +:+ expand_replacement rest before matched after
            else if Ascii.eqb c "'" then
              after +:+ expand_replacement rest before matched after
            else
              String d (expand_replacement tail before matched after)
        end
      else String d (expand_replacement tail before matched after)
  end.

(** [s.replace(pattern, replacement)] with a string pattern: only the
    first occurrence is replaced. *)
Definition js_replace (s pattern replacement : string) : string :=
  match index 0 pattern s with
  | None => s
  | Some i =>
      let before := substring 0 i s in
      let after :=
        substring (i + String.length pattern)
                  (String.length s - (i + String.length pattern)) s in
      before +:+ expand_replacement replacement before pattern after +:+ after
  end.

(** ** The host: Node's [path], the file system, the editor *)

Class NodePath := {
  path_join : list string -> string;
  path_dirname : string -> string;
  path_basename : string -> string
}.

Inductive FsEntry : Type :=
| File (content : string)
| Directory.

Abbreviation FileSystem := (gmap string FsEntry).

(** [fs.existsSync(p)] *)
Definition existsSync (disk : FileSystem) (p : string) : bool :=
  match disk !! p with Some _ => true | None => false end.

(** [fs.readFileSync(p, 'utf-8')] *)
Definition readFileSync (disk : FileSystem) (p : string) : Outcome string :=
  match disk !! p with
  | Some (File content) => Returned content
  | Some Directory => Thrown "EISDIR: illegal operation on a directory, read"
  | None => Thrown ("ENOENT: no such file or directory, open '" +:+ p +:+ "'")
  end.

(** What the extension host supplies to the book provider: the YAML
    parser, the glob search (pattern and [deep] option; [None] is an
    omitted option, for which the search has no depth limit) and the
    extension context's [asAbsolutePath]. *)
Class BookHost := {
  safeLoad : string -> Outcome Yaml;
  glob : FileSystem -> string -> option Z -> Outcome (list string);
  asAbsolutePath : string -> string
}.

(** ** Book tree items *)

Inductive BookTreeItemType : Type := Book | ExternalLink | Notebook | Markdown.

Inductive TreeItemCollapsibleState : Type := Collapsed | Expanded.

(** The first argument of [new BookTreeItem(...)]. *)
Record BookTreeItemFormat : Type := {
  title : option Yaml;
  root : string;
  tableOfContents : list Yaml;
  page : Yaml;
  type : BookTreeItemType;
  treeItemCollapsibleState : TreeItemCollapsibleState;
  untitled : bool
}.

Record Icons : Type := { light : string; dark : string }.

(** Modelled from the spec: class [BookTreeItem] of [./bookTreeItem] is not
    among the sources. A book node is one of the variants Book,
    ExternalLink, Notebook, Markdown and carries its title, the book's
    root, the flattened outline, its own page and an icon pair; here a
    tree item is the pair of arguments its constructor was given, and its
    [root] is the one of that first argument. *)
Record BookTreeItem : Type := {
  book : BookTreeItemFormat;
  icons : Icons
}.

(** ** State of a [BookTreeViewProvider] *)

(** The class's fields, then what it has sent to the editor so far: the
    texts given to [showErrorMessage], the values given to
    [setContext bookOpened] and the number of [onReadAllTOCFiles]
    events. *)
Record BookProvider : Type := {
  _tableOfContentPaths : list string;
  _allNotebooks : gmap string BookTreeItem;
  _throttleTimer : option nat;
  _resource : option string;
  _errorMessage : option string;
  _openAsUntitled : bool;
  _bookPath : option string;
  shownErrors : list string;
  bookOpenedContext : list bool;
  readAllTOCFilesFired : nat
}.

(** The fields right after the constructor's assignments. *)
Definition new_provider (openAsUntitled : bool) : BookProvider :=
  {| _tableOfContentPaths := [];
     _allNotebooks := ∅;
     _throttleTimer := None;
     _resource := None;
     _errorMessage := None;
     _openAsUntitled := openAsUntitled;
     _bookPath := None;
     shownErrors := [];
     bookOpenedContext := [];
     readAllTOCFilesFired := 0 |}.

Definition set_allNotebooks (m : gmap string BookTreeItem) (st : BookProvider) :=
  {| _tableOfContentPaths := _tableOfContentPaths st;
     _allNotebooks := m;
     _throttleTimer := _throttleTimer st;
     _resource := _resource st;
     _errorMessage := _errorMessage st;
     _openAsUntitled := _openAsUntitled st;
     _bookPath := _bookPath st;
     shownErrors := shownErrors st;
     bookOpenedContext := bookOpenedContext st;
     readAllTOCFilesFired := readAllTOCFilesFired st |}.

(** [this._errorMessage = error; vscode.window.showErrorMessage(error);] *)
Definition report_error (error : string) (st : BookProvider) :=
  {| _tableOfContentPaths := _tableOfContentPaths st;
     _allNotebooks := _allNotebooks st;
     _throttleTimer := _throttleTimer st;
     _resource := _resource st;
     _errorMessage := Some error;
     _openAsUntitled := _openAsUntitled st;
     _bookPath := _bookPath st;
     shownErrors := shownErrors st ++ [error];
     bookOpenedContext := bookOpenedContext st;
     readAllTOCFilesFired := readAllTOCFilesFired st |}.

Definition set_tableOfContentPaths (paths : list string) (st : BookProvider) :=
  {| _tableOfContentPaths := paths;
     _allNotebooks := _allNotebooks st;
     _throttleTimer := _throttleTimer st;
     _resource := _resource st;
     _errorMessage := _errorMessage st;
     _openAsUntitled := _openAsUntitled st;
     _bookPath := _bookPath st;
     shownErrors := shownErrors st;
     bookOpenedContext := bookOpenedContext st;
     readAllTOCFilesFired := readAllTOCFilesFired st |}.

Definition set_throttle (timer : option nat) (resource : option string)
  (st : BookProvider) :=
  {| _tableOfContentPaths := _tableOfContentPaths st;
     _allNotebooks := _allNotebooks st;
     _throttleTimer := timer;
     _resource := resource;
     _errorMessage := _errorMessage st;
     _openAsUntitled := _openAsUntitled st;
     _bookPath := _bookPath st;
     shownErrors := shownErrors st;
     bookOpenedContext := bookOpenedContext st;
     readAllTOCFilesFired := readAllTOCFilesFired st |}.


(** [executeCommand('setContext', 'bookOpened', b); this._onReadAllTOCFiles.fire();] *)
Definition announce_scan (st : BookProvider) :=
  {| _tableOfContentPaths := _tableOfContentPaths st;
     _allNotebooks := _allNotebooks st;
     _throttleTimer := _throttleTimer st;
     _resource := _resource st;
     _errorMessage := _errorMessage st;
     _openAsUntitled := _openAsUntitled st;
     _bookPath := _bookPath st;
     shownErrors := shownErrors st;
     bookOpenedContext :=
       bookOpenedContext st ++ [(0 <? length (_tableOfContentPaths st))%nat];
     readAllTOCFilesFired := S (readAllTOCFilesFired st) |}.

(** ** [BookTreeViewProvider.getSections] *)

Section BookTree.
Context `{NodePath} `{BookHost}.

(** [url.concat(ext)] handed to [path.join]: a string gets the extension
    appended; a number or a boolean has no [concat], a mapping read from
    YAML holds no function, and the array that an array's [concat] gives
    is refused by [path.join]. *)
Definition url_concat (url : option Yaml) (ext : string) : Outcome string :=
  match url with
  | Some (YStr u) => Returned (u +:+ ext)
  | Some (YSeq _) => Thrown "The path argument must be of type string"
  | _ => Thrown "sections[i].url.concat is not a function"
  end.

Definition item (s : Yaml) (toc : list Yaml) (r : string) (t : BookTreeItemType)
    (untitled_mode : bool) (light_icon dark_icon : string) : Outcome BookTreeItem :=
  item_title ← member s "title";
  Returned
    {| book := {| title := item_title;
                  root := r;
                  tableOfContents := toc;
                  page := s;
                  type := t;
                  treeItemCollapsibleState := Collapsed;
                  untitled := untitled_mode |};
       icons := {| light := asAbsolutePath light_icon;
                   dark := asAbsolutePath dark_icon |} |}.

(** The body of the [for] loop, for [sections[i] = s]: the item pushed
    on [notebooks], if any, and the provider afterwards. A throw leaves
    the loop and the method. *)
Definition section_step (disk : FileSystem) (toc : list Yaml) (r : string)
    (st : BookProvider) (s : Yaml) : Outcome (option BookTreeItem * BookProvider) :=
  url ← member s "url";
  if truthy url then
    external ← member s "external";
    if truthy external then
      externalLink ← item s toc r ExternalLink (_openAsUntitled st)
                        "resources/light/link.svg" "resources/dark/link_inverse.svg";
      Returned (Some externalLink, st)
    else
      notebookFile ← url_concat url ".ipynb";
      let pathToNotebook := path_join [r; "content"; notebookFile] in
      markdownFile ← url_concat url ".md";
      let pathToMarkdown := path_join [r; "content"; markdownFile] in
      if existsSync disk pathToNotebook then
        notebook ← item s toc r Notebook (_openAsUntitled st)
                      "resources/light/notebook.svg"
                      "resources/dark/notebook_inverse.svg";
        let index1 := <[pathToNotebook := notebook]> (_allNotebooks st) in
        let index2 :=
          if _openAsUntitled st
          then <[path_basename pathToNotebook := notebook]> index1
          else index1 in
        Returned (Some notebook, set_allNotebooks index2 st)
      else if existsSync disk pathToMarkdown then
        markdown ← item s toc r Markdown (_openAsUntitled st)
                      "resources/light/markdown.svg"
                      "resources/dark/markdown_inverse.svg";
        Returned (Some markdown, st)
      else
        sTitle ← member s "title";
        Returned (None, report_error (missing_file_message sTitle) st)
  else
    Returned (None, st).

(** [getSections(tableOfContents, sections, root)]: the loop over
    [sections], [notebooks] being the items pushed so far. What was
    stored in the provider before a throw stays stored. *)
Fixpoint getSections_loop (disk : FileSystem) (toc : list Yaml)
    (sections : list Yaml) (r : string)
    (notebooks : list BookTreeItem) (st : BookProvider)
  : Outcome (list BookTreeItem) * BookProvider :=
  match sections with
  | [] => (Returned notebooks, st)
  | s :: rest =>
      match section_step disk toc r st s with
      | Thrown e => (Thrown e, st)
      | Returned (pushed, st') =>
          getSections_loop disk toc rest r
            (match pushed with
             | Some node => notebooks ++ [node]
             | None => notebooks
             end) st'
      end
  end.

Definition getSections (disk : FileSystem) (st : BookProvider)
    (toc : list Yaml) (sections : list Yaml) (r : string)
  : Outcome (list BookTreeItem) * BookProvider :=
  getSections_loop disk toc sections r [] st.

(** ** [BookTreeViewProvider.getBooks] *)

(** The body of the [try] block for one [contentPath]. *)
Definition load_book (disk : FileSystem) (st : BookProvider) (contentPath : string)
  : Outcome BookTreeItem :=
  let r := path_dirname (path_dirname contentPath) in
  configText ← readFileSync disk (path_join [r; "_config.yml"]);
  config ← safeLoad configText;
  tocText ← readFileSync disk contentPath;
  toc ← safeLoad tocText;
  configTitle ← member config "title";
  flat ← flattenArray toc configTitle;
  Returned
    {| book := {| title := configTitle;
                  root := r;
                  tableOfContents := flat;
                  page := toc;
                  type := Book;
                  treeItemCollapsibleState := Expanded;
                  untitled := _openAsUntitled st |};
       icons := {| light := asAbsolutePath "resources/light/book.svg";
                   dark := asAbsolutePath "resources/dark/book_inverse.svg" |} |}.

(** One turn of the [for ... of] loop, [try] and [catch] together. *)
Definition getBooks_step (disk : FileSystem)
    (acc : list BookTreeItem * BookProvider) (contentPath : string)
  : list BookTreeItem * BookProvider :=
  let '(books, st) := acc in
  match load_book disk st contentPath with
  | Returned b => (books ++ [b], st)
  | Thrown error => (books, report_error error st)
  end.

Definition getBooks (disk : FileSystem) (st : BookProvider)
  : list BookTreeItem * BookProvider :=
  fold_left (getBooks_step disk) (_tableOfContentPaths st) ([], st).

(** ** [BookTreeViewProvider.getTableOfContentFiles] *)

(** The search depth handed to [glob] for a configured
    [maxBookSearchDepth] ([None]: the setting is [undefined]). *)
Definition effective_depth (configured : option Z) : option Z :=
  match configured with
  | None => Some 5%Z
  | Some maxDepth =>
      if (maxDepth <? 0)%Z then Some 5%Z
      else if (maxDepth =? 0)%Z then None
      else Some maxDepth
  end.

(** The [for] loop over the workspace paths. *)
Fixpoint scan_roots (disk : FileSystem) (maxDepth : option Z)
    (workspacePaths : list string) (st : BookProvider)
  : Outcome unit * BookProvider :=
  match workspacePaths with
  | [] => (Returned tt, st)
  | workspacePath :: rest =>
      let p := slashes (path_join [workspacePath; "**"; "_data"; "toc.yml"]) in
      match glob disk p maxDepth with
      | Thrown e => (Thrown e, st)
      | Returned tableOfContentPaths =>
          scan_roots disk maxDepth rest
            (set_tableOfContentPaths
               (_tableOfContentPaths st ++ tableOfContentPaths) st)
      end
  end.

Definition getTableOfContentFiles (configured : option Z) (disk : FileSystem)
    (workspacePaths : list string) (st : BookProvider)
  : Outcome unit * BookProvider :=
  match scan_roots disk (effective_depth configured) workspacePaths st with
  | (Returned _, st') => (Returned tt, announce_scan st')
  | (Thrown e, st') => (Thrown e, st')
  end.

(** ** [BookTreeViewProvider.getParent] *)

(** [path.join(this._bookPath, 'content', 'readme.md')]: [path.join]
    refuses an argument that is not a string, and [_bookPath] is
    [undefined] until [openBook] assigns it. *)
Definition readme_of_book (st : BookProvider) : Outcome string :=
  match _bookPath st with
  | Some bookPath => Returned (path_join [bookPath; "content"; "readme.md"])
  | None => Thrown "The path argument must be of type string. Received undefined"
  end.

(** The result is what the returned promise resolves to; [None] stands
    for [null] and for the [undefined] of a key missing in the map. *)
Definition getParent (st : BookProvider) (element : BookTreeItem)
  : Outcome (option BookTreeItem) :=
  let elementRoot := root (book element) in
  if endsWith elementRoot ".md" then
    parentPath ← readme_of_book st;
    if String.eqb parentPath elementRoot then Returned None
    else Returned (_allNotebooks st !! parentPath)
  else if endsWith elementRoot ".ipynb" then
    let baseName := path_basename elementRoot in
    let parentPath := js_replace elementRoot baseName "readme.md" in
    Returned (_allNotebooks st !! parentPath)
  else Returned None.
End BookTree.


(** *** Vocabulary for the statements about [getSections] and [getBooks] *)

(** The [url] a section bears: a non-empty string, which is what passes
    the test [if (sections[i].url)] and has a string [concat]. *)
Definition leaf_url (s : Yaml) : option string :=
  match member s "url" with
  | Returned (Some (YStr u)) => if String.eqb u EmptyString then None else Some u
  | _ => None
  end.

(** [sections[i].external] is set (truthy). *)
Definition external_set (s : Yaml) : bool :=
  match member s "external" with
  | Returned e => truthy e
  | Thrown _ => false
  end.

Definition item_type (n : BookTreeItem) : BookTreeItemType := type (book n).

Definition is_markdown (n : BookTreeItem) : bool :=
  match item_type n with Markdown => true | _ => false end.

Section BookTreeVocabulary.
Context `{NodePath} `{BookHost}.

Definition notebook_path (r u : string) : string :=
  path_join [r; "content"; u +:+ ".ipynb"].

Definition markdown_path (r u : string) : string :=
  path_join [r; "content"; u +:+ ".md"].

(** The books among [paths] that load, in order. *)
Definition loaded (disk : FileSystem) (st : BookProvider) (paths : list string)
  : list BookTreeItem :=
  omap (fun p => match load_book disk st p with
                 | Returned b => Some b
                 | Thrown _ => None
                 end) paths.

(** The messages of the books among [paths] that do not load, in order. *)
Definition failures (disk : FileSystem) (st : BookProvider) (paths : list string) : list string :=
  omap (fun p => match load_book disk st p with
                 | Returned _ => None
                 | Thrown e => Some e
                 end) paths.



(** What the scans of the workspace paths find, when every search
    returns. *)
Fixpoint scan_results (disk : FileSystem) (maxDepth : option Z)
    (workspacePaths : list string) : Outcome (list string) :=
  match workspacePaths with
  | [] => Returned []
  | workspacePath :: rest =>
      found ← glob disk
                (slashes (path_join [workspacePath; "**"; "_data"; "toc.yml"]))
                maxDepth;
      more ← scan_results disk maxDepth rest;
      Returned (found ++ more)
  end.
End BookTreeVocabulary.


(** ** [BookTreeViewProvider.runThrottledAction] *)

(** The timers of the event loop. An action is known by the number of the
    request that supplied it; [invoked] lists the actions run so far with
    the time at which each ran. *)
Record Timer : Type := { handle : nat; due : Z; callback : nat }.

Record Clock : Type := {
  now : Z;
  timers : list Timer;
  nextHandle : nat;
  invoked : list (Z * nat)
}.

Definition new_clock : Clock :=
  {| now := 0; timers := []; nextHandle := 1; invoked := [] |}.

(** [clearTimeout(h)]; clearing [undefined] does nothing. *)
Definition clearTimeout (h : option nat) (w : Clock) : Clock :=
  match h with
  | None => w
  | Some id =>
      {| now := now w;
         timers := List.filter (fun tm => negb (handle tm =? id)%nat) (timers w);
         nextHandle := nextHandle w;
         invoked := invoked w |}
  end.

(** [setTimeout(() => action(), delay)]: the new handle and the clock. *)
Definition setTimeout (action : nat) (delay : Z) (w : Clock) : nat * Clock :=
  (nextHandle w,
   {| now := now w;
      timers := timers w ++ [{| handle := nextHandle w;
                                due := (now w + delay)%Z;
                                callback := action |}];
      nextHandle := S (nextHandle w);
      invoked := invoked w |}).

(** [action()] *)
Definition invoke (action : nat) (w : Clock) : Clock :=
  {| now := now w;
     timers := timers w;
     nextHandle := nextHandle w;
     invoked := invoked w ++ [(now w, action)] |}.

Fixpoint insert_by_due (tm : Timer) (sorted : list Timer) : list Timer :=
  match sorted with
  | [] => [tm]
  | x :: rest =>
      if (due tm <? due x)%Z then tm :: sorted else x :: insert_by_due tm rest
  end.

Definition sort_by_due (l : list Timer) : list Timer :=
  fold_left (fun sorted tm => insert_by_due tm sorted) l [].

(** Time passes until [t]: the timers due by then run, earliest first, each
    at its due time. (The callbacks here set no timers.) *)
Definition advance (t : Z) (w : Clock) : Clock :=
  {| now := Z.max (now w) t;
     timers := List.filter (fun tm => (t <? due tm)%Z) (timers w);
     nextHandle := nextHandle w;
     invoked :=
       invoked w
       ++ map (fun tm => (due tm, callback tm))
              (sort_by_due (List.filter (fun tm => (due tm <=? t)%Z) (timers w))) |}.

Definition same_resource (resource : string) (current : option string) : bool :=
  match current with
  | Some r => String.eqb resource r
  | None => false
  end.

Definition runThrottledAction (resource : string) (action : nat)
    (sw : BookProvider * Clock) : BookProvider * Clock :=
  let '(st, w) := sw in
  let isResourceChange := negb (same_resource resource (_resource st)) in
  let '(st1, w1) :=
    if isResourceChange
    then (set_throttle None (_resource st) st, clearTimeout (_throttleTimer st) w)
    else (st, w) in
  let st2 := set_throttle (_throttleTimer st1) (Some resource) st1 in
  match _throttleTimer st2 with
  | None =>
      if isResourceChange then (st2, invoke action w1)
      else
        let '(h, w2) := setTimeout action 300 w1 in
        (set_throttle (Some h) (Some resource) st2, w2)
  | Some _ => (st2, w1)
  end.

(** A request made at a given time. *)
Record Request : Type := { at_time : Z; for_resource : string; with_action : nat }.

Definition serve (sw : BookProvider * Clock) (q : Request) : BookProvider * Clock :=
  runThrottledAction (for_resource q) (with_action q)
    (fst sw, advance (at_time q) (snd sw)).

(** The requests are served in turn, then time passes until [horizon]. *)
Definition run_requests (requests : list Request) (horizon : Z)
    (sw : BookProvider * Clock) : Clock :=
  advance horizon (snd (fold_left serve requests sw)).

Definition actions_run (w : Clock) : list nat := map snd (invoked w).

(** ** [ProjectsController.macroExpansion] *)

(** [s.replace(new RegExp(pattern, 'g'), replacement)] for a pattern that
    the regular expression matches literally and that is not empty:
    matches are found from left to right and do not overlap. [s] is the
    part of [whole] from [position] on; [skip] counts the characters of
    the last match still to pass over. *)
Fixpoint replace_all_from (pattern replacement whole : string)
    (position skip : nat) (s : string) : string :=
  match s with
  | EmptyString => EmptyString
  | String c rest =>
      match skip with
      | S k => replace_all_from pattern replacement whole (S position) k rest
      | O =>
          if String.prefix pattern s then
            let stop := (position + String.length pattern)%nat in
            expand_replacement replacement
              (substring 0 position whole) pattern
              (substring stop (String.length whole - stop) whole)
            +:+ replace_all_from pattern replacement whole (S position)
                  (String.length pattern - 1) rest
          else
            String c (replace_all_from pattern replacement whole (S position) 0 rest)
      end
  end.

Definition js_replace_global (s pattern replacement : string) : string :=
  replace_all_from pattern replacement s 0 0 s.

Definition macroIndicator : string := "@@".

(** The dictionary is the list of its entries in the order of [for ... in].
    The macro names are words (letters, digits, underscores), as they are
    wherever the method is called: a regular expression matches those
    literally. *)
Fixpoint macroExpansion_loop (output : string) (macroDict : list (string * string))
  : Outcome string :=
  match macroDict with
  | [] => Returned output
  | (macro, value) :: rest =>
      if includes value macroIndicator then
        Thrown ("Macro value " +:+ value +:+ " is invalid because it contains "
                +:+ macroIndicator)
      else
        macroExpansion_loop
          (js_replace_global output (macroIndicator +:+ macro +:+ macroIndicator) value)
          rest
  end.

Definition macroExpansion (template : string) (macroDict : list (string * string))
  : Outcome string :=
  macroExpansion_loop template macroDict.

(** What the specification asks of one macro: each occurrence of the
    marked name gives way to the value itself. *)
Fixpoint substitute_from (pattern value : string) (skip : nat) (s : string) : string :=
  match s with
  | EmptyString => EmptyString
  | String c rest =>
      match skip with
      | S k => substitute_from pattern value k rest
      | O =>
          if String.prefix pattern s
          then value +:+ substitute_from pattern value (String.length pattern - 1) rest
          else String c (substitute_from pattern value 0 rest)
      end
  end.

Fixpoint substitute_all (template : string) (macroDict : list (string * string))
  : string :=
  match macroDict with
  | [] => template
  | (macro, value) :: rest =>
      substitute_all
        (substitute_from (macroIndicator +:+ macro +:+ macroIndicator) value 0 template)
        rest
  end.

(** ** [ProjectsController.createNewProject] *)

Definition lower_ascii (c : ascii) : ascii :=
  let n := nat_of_ascii c in
  if ((65 <=? n) && (n <=? 90))%nat then ascii_of_nat (n + 32) else c.

Definition upper_ascii (c : ascii) : ascii :=
  let n := nat_of_ascii c in
  if ((97 <=? n) && (n <=? 122))%nat then ascii_of_nat (n - 32) else c.

Fixpoint map_string (f : ascii -> ascii) (s : string) : string :=
  match s with
  | EmptyString => EmptyString
  | String c rest => String (f c) (map_string f rest)
  end.

(** [toLowerCase] and [toUpperCase] on texts of the ASCII range. *)
Definition toLowerCase : string -> string := map_string lower_ascii.
Definition toUpperCase : string -> string := map_string upper_ascii.

Definition is_hex (c : ascii) : bool :=
  let n := nat_of_ascii c in
  (((48 <=? n) && (n <=? 57)) || ((97 <=? n) && (n <=? 102))
   || ((65 <=? n) && (n <=? 70)))%nat.

(** [n] hexadecimal digits in front of [s]; what follows them. *)
Fixpoint hex_digits (n : nat) (s : string) : option string :=
  match n with
  | O => Some s
  | S k =>
      match s with
      | String c rest => if is_hex c then hex_digits k rest else None
      | EmptyString => None
      end
  end.

Definition dash_then (f : string -> option string) (s : option string) : option string :=
  match s with
  | Some (String "-" rest) => f rest
  | _ => None
  end.

(** [UUID.isUUID]:
    [/^[0-9a-f]{8}-[0-9a-f]{4}-[0-9a-f]{4}-[0-9a-f]{4}-[0-9a-f]{12}$/i] *)
Definition isUUID (value : string) : bool :=
  match dash_then (hex_digits 12)
          (dash_then (hex_digits 4)
             (dash_then (hex_digits 4)
                (dash_then (hex_digits 4) (hex_digits 8 value)))) with
  | Some EmptyString => true
  | _ => false
  end.

(** The texts of [../templates/templates] and [../common/constants] that
    the method uses. *)
Class ProjectTexts := {
  newSqlProjectTemplate : string;
  sqlprojExtension : string;
  projectAlreadyExists : string -> string -> string
}.

(** An [async] method on the file system: it settles, or awaits one
    operation of [fs.promises] and goes on. [Access p k] stands for
    [try { await fs.access(p); fileExists = true; } catch { }], [k] being
    given [fileExists]. *)
Inductive Async (A : Type) : Type :=
| Resolve (a : A)
| Reject (message : string)
| Access (p : string) (k : bool -> Async A)
| Mkdir (p : string) (k : Async A)
| WriteFile (p : string) (content : string) (k : Async A).
Arguments Resolve {A} a.
Arguments Reject {A} message.
Arguments Access {A} p k.
Arguments Mkdir {A} p k.
Arguments WriteFile {A} p content k.

Section CreateProject.
Context `{NodePath} `{ProjectTexts}.

(** [generated] is what [UUID.generateUuid()] gives if it is called. *)
Definition createNewProject (generated : string) (newProjName : string)
    (folder : string) (projectGuid : option string) : Async string :=
  let invalid :=
    match projectGuid with
    | Some g => negb (String.eqb g EmptyString) && negb (isUUID g)
    | None => false
    end in
  if invalid then
    Reject ("Specified GUID is invalid: '"
            +:+ match projectGuid with Some g => g | None => EmptyString end +:+ "'")
  else
    let macroDict :=
      [("PROJECT_NAME", newProjName);
       ("PROJECT_GUID", match projectGuid with
                        | Some g => g
                        | None => toUpperCase generated
                        end)] in
    match macroExpansion newSqlProjectTemplate macroDict with
    | Thrown e => Reject e
    | Returned newProjFileContents =>
        let newProjFileName :=
          if endsWith (toLowerCase newProjName) sqlprojExtension
          then newProjName
          else newProjName +:+ sqlprojExtension in
        let newProjFilePath := path_join [folder; newProjFileName] in
        Access newProjFilePath (fun fileExists =>
          if fileExists then
            Reject (projectAlreadyExists newProjFileName folder)
          else
            Mkdir (path_dirname newProjFilePath)
              (WriteFile newProjFilePath newProjFileContents
                 (Resolve newProjFilePath)))
    end.
End CreateProject.

(** Running an [async] method on a disk that others use too: before each
    awaited operation takes effect, the next element of [others] is what
    everybody else did to the disk in the meantime (nothing, once the list
    is used up). *)
Definition meanwhile (others : list (FileSystem -> FileSystem)) (disk : FileSystem)
  : FileSystem :=
  match others with
  | [] => disk
  | f :: _ => f disk
  end.

Fixpoint run_async {A} (prog : Async A) (others : list (FileSystem -> FileSystem))
    (disk : FileSystem) : Outcome A * FileSystem :=
  match prog with
  | Resolve a => (Returned a, disk)
  | Reject e => (Thrown e, disk)
  | Access p k =>
      let disk' := meanwhile others disk in
      run_async (k (existsSync disk' p)) (tail others) disk'
  | Mkdir p k =>
      let disk' := meanwhile others disk in
      match disk' !! p with
      | Some (File _) => (Thrown ("EEXIST: file already exists, mkdir '" +:+ p +:+ "'"), disk')
      | _ => run_async k (tail others) (<[p := Directory]> disk')
      end
  | WriteFile p content k =>
      let disk' := meanwhile others disk in
      match disk' !! p with
      | Some Directory =>
          (Thrown ("EISDIR: illegal operation on a directory, open '" +:+ p +:+ "'"), disk')
      | _ => run_async k (tail others) (<[p := File content]> disk')
      end
  end.

(** ** [AzureArcTreeDataProvider] *)

(** What the provider reads of a [ControllerInfo]. *)
Record ControllerInfo : Type := {
  url : string;
  username : string;
  rememberPassword : bool
}.

Record ControllerModel : Type := { info : ControllerInfo }.

(** A [ControllerTreeNode] is an object: [nodeId] tells two nodes apart
    the way [!==] does. *)
Record ControllerTreeNode : Type := { nodeId : nat; model : ControllerModel }.

Inductive TreeNode : Type :=
| LoadingTreeNode
| ControllerNode (node : ControllerTreeNode)
| ResourceNode (label : string).

(** The parts of the extension that are not among the sources:
    [ControllerModel.equals] and the [getChildren] of the nodes. *)
Class ArcHost := {
  model_equals : ControllerModel -> ControllerModel -> bool;
  node_getChildren : TreeNode -> Outcome (list TreeNode)
}.

(** The fields of the provider, the events fired on [onDidChangeTreeData],
    the [arcControllers] memento of the global state and the credential
    store. *)
Record ArcProvider : Type := {
  _loading : bool;
  _controllerNodes : list ControllerTreeNode;
  nextNodeId : nat;
  treeChanges : list (option TreeNode);
  memento : list ControllerInfo;
  credentials : gmap string string
}.

(** The fields as the class initialises them, before the constructor's
    call of [loadSavedControllers]. *)
Definition new_arc_provider (saved : list ControllerInfo) : ArcProvider :=
  {| _loading := true;
     _controllerNodes := [];
     nextNodeId := 0;
     treeChanges := [];
     memento := saved;
     credentials := ∅ |}.

Definition getCredentialId (i : ControllerInfo) : string :=
  url i +:+ "::" +:+ username i.

(** [new ControllerTreeNode(...)] for each model, numbering the nodes from
    [first]. *)
Fixpoint new_nodes (first : nat) (models : list ControllerModel)
  : list ControllerTreeNode :=
  match models with
  | [] => []
  | m :: rest => {| nodeId := first; model := m |} :: new_nodes (S first) rest
  end.

Section Arc.
Context `{ArcHost}.

Definition getChildren (p : ArcProvider) (element : option TreeNode)
  : Outcome (list TreeNode) :=
  if _loading p then Returned [LoadingTreeNode]
  else
    match element with
    | Some e => node_getChildren e
    | None => Returned (map ControllerNode (_controllerNodes p))
    end.

(** [stored] is how [this._context.globalState.get(mementoToken) || []]
    ends. The [finally] block runs either way. *)
Definition loadSavedControllers (stored : Outcome (list ControllerInfo))
    (p : ArcProvider) : Outcome unit * ArcProvider :=
  let '(result, nodes, next) :=
    match stored with
    | Returned controllerMementos =>
        (Returned tt,
         new_nodes (nextNodeId p) (map (fun m => {| info := m |}) controllerMementos),
         (nextNodeId p + length controllerMementos)%nat)
    | Thrown e => (Thrown e, _controllerNodes p, nextNodeId p)
    end in
  (result,
   {| _loading := false;
      _controllerNodes := nodes;
      nextNodeId := next;
      treeChanges := treeChanges p ++ [None];
      memento := memento p;
      credentials := credentials p |}).

Definition fire (node : option TreeNode) (p : ArcProvider) : ArcProvider :=
  {| _loading := _loading p;
     _controllerNodes := _controllerNodes p;
     nextNodeId := nextNodeId p;
     treeChanges := treeChanges p ++ [node];
     memento := memento p;
     credentials := credentials p |}.

Definition saveControllers (p : ArcProvider) : ArcProvider :=
  {| _loading := _loading p;
     _controllerNodes := _controllerNodes p;
     nextNodeId := nextNodeId p;
     treeChanges := treeChanges p;
     memento := map (fun node => info (model node)) (_controllerNodes p);
     credentials := credentials p |}.

Definition set_controllerNodes (nodes : list ControllerTreeNode) (next : nat)
    (p : ArcProvider) : ArcProvider :=
  {| _loading := _loading p;
     _controllerNodes := nodes;
     nextNodeId := next;
     treeChanges := treeChanges p;
     memento := memento p;
     credentials := credentials p |}.

Definition updatePassword (m : ControllerModel) (password : string)
    (p : ArcProvider) : ArcProvider :=
  {| _loading := _loading p;
     _controllerNodes := _controllerNodes p;
     nextNodeId := nextNodeId p;
     treeChanges := treeChanges p;
     memento := memento p;
     credentials :=
       if rememberPassword (info m)
       then <[getCredentialId (info m) := password]> (credentials p)
       else delete (getCredentialId (info m)) (credentials p) |}.

(** [controllerNode.model.info = model.info] for the first node that
    [find] meets. *)
Fixpoint update_found (m : ControllerModel) (nodes : list ControllerTreeNode)
  : option (list ControllerTreeNode) :=
  match nodes with
  | [] => None
  | node :: rest =>
      if model_equals m (model node)
      then Some ({| nodeId := nodeId node; model := {| info := info m |} |} :: rest)
      else option_map (cons node) (update_found m rest)
  end.

(** [providerReady]: whether awaiting the credential provider succeeds;
    if it does not, the method ends there, rejected. *)
Definition addOrUpdateController (m : ControllerModel) (password : string)
    (refreshTree : bool) (providerReady : bool) (p : ArcProvider) : ArcProvider :=
  let p1 :=
    match update_found m (_controllerNodes p) with
    | Some nodes => set_controllerNodes nodes (nextNodeId p) p
    | None =>
        set_controllerNodes
          (_controllerNodes p ++ [{| nodeId := nextNodeId p; model := m |}])
          (S (nextNodeId p)) p
    end in
  if providerReady then
    let p2 := updatePassword m password p1 in
    let p3 := if refreshTree then fire None p2 else p2 in
    saveControllers p3
  else p1.

Definition removeController (controllerNode : ControllerTreeNode) (p : ArcProvider)
  : ArcProvider :=
  saveControllers
    (fire None
       (set_controllerNodes
          (List.filter (fun node => negb (nodeId node =? nodeId controllerNode)%nat)
             (_controllerNodes p))
          (nextNodeId p) p)).

Definition refreshNode (node : option TreeNode) (p : ArcProvider) : ArcProvider :=
  fire node p.

(** The calls the rest of the extension makes on a provider. Neither
    [getChildren], [getTreeItem] nor [getPassword] assigns a field. *)
Inductive ArcCall : Type :=
| CallGetChildren (element : option TreeNode)
| CallGetTreeItem (element : TreeNode)
| CallGetPassword (i : ControllerInfo)
| CallAddOrUpdateController (m : ControllerModel) (password : string)
    (refreshTree providerReady : bool)
| CallRemoveController (controllerNode : ControllerTreeNode)
| CallRefreshNode (node : option TreeNode).

Definition arc_call (p : ArcProvider) (c : ArcCall) : ArcProvider :=
  match c with
  | CallGetChildren _ | CallGetTreeItem _ | CallGetPassword _ => p
  | CallAddOrUpdateController m password refreshTree providerReady =>
      addOrUpdateController m password refreshTree providerReady p
  | CallRemoveController controllerNode => removeController controllerNode p
  | CallRefreshNode node => refreshNode node p
  end.

Definition arc_calls (calls : list ArcCall) (p : ArcProvider) : ArcProvider :=
  fold_left arc_call calls p.
End Arc.

(** ** A small host and a small book, for the examples *)

(** Directory part and last component of a path written with single
    slashes. *)
Fixpoint dir_base (s : string) : option string * string :=
  match s with
  | EmptyString => (None, EmptyString)
  | String c rest =>
      match dir_base rest with
      | (Some d, b) => (Some (String c d), b)
      | (None, b) =>
          if Ascii.eqb c "/" then (Some EmptyString, b) else (None, String c b)
      end
  end.

(** [path] on paths that need no normalising: no [.] or [..] component, no
    doubled or trailing slash. *)
Definition posix_path : NodePath :=
  {| path_join := String.concat "/";
     path_dirname := fun p =>
       match fst (dir_base p) with
       | Some EmptyString => "/"
       | Some d => d
       | None => "."
       end;
     path_basename := fun p => snd (dir_base p) |}.

Definition intro_section : Yaml :=
  YMap [("title", YStr "Intro"); ("url", YStr "intro");
        ("sections", YSeq [YMap [("title", YStr "Setup"); ("url", YStr "setup")]])].

Definition setup_section : Yaml :=
  YMap [("title", YStr "Setup"); ("url", YStr "setup")].

Definition ghost_section : Yaml :=
  YMap [("title", YStr "Ghost"); ("url", YStr "ghost")].

Definition demo_toc : list Yaml := [intro_section; ghost_section].

(** A parser that knows three texts. *)
Definition demo_safeLoad (text : string) : Outcome Yaml :=
  if String.eqb text "title: Demo" then Returned (YMap [("title", YStr "Demo")])
  else if String.eqb text "demo toc" then Returned (YSeq demo_toc)
  else if String.eqb text "title: Other" then Returned (YMap [("title", YStr "Other")])
  else Thrown ("YAMLException: cannot parse " +:+ text).

Definition demo_disk : FileSystem :=
  list_to_map
    [("/ws/demo/_config.yml", File "title: Demo");
     ("/ws/demo/_data/toc.yml", File "demo toc");
     ("/ws/demo/content/intro.ipynb", File "{}");
     ("/ws/demo/content/intro.md", File "# Intro");
     ("/ws/demo/content/setup.md", File "# Setup");
     ("/ws/other/_config.yml", File "title: Other");
     ("/ws/other/_data/toc.yml", File "demo toc");
     ("/ws/broken/_config.yml", File "title: Demo");
     ("/ws/broken/_data/toc.yml", File "- title: [")].

Definition demo_host : BookHost :=
  {| safeLoad := demo_safeLoad;
     glob := fun disk pattern deep =>
       if String.eqb pattern "/ws/**/_data/toc.yml"
       then Returned ["/ws/demo/_data/toc.yml"; "/ws/broken/_data/toc.yml";
                      "/ws/other/_data/toc.yml"]
       else Returned [];
     asAbsolutePath := fun p => "/ext/" +:+ p |}.

(** The items [getSections] makes for [sections] of the small book on the
    small disk, in a fresh provider. *)
Definition demo_items (sections : list Yaml) : list BookTreeItem :=
  match fst (getSections (H:=posix_path) (H0:=demo_host) demo_disk
               (new_provider false) [] sections "/ws/demo") with
  | Returned l => l
  | Thrown _ => []
  end.

(** A provider that has found the three books of the small disk. *)
Definition demo_provider : BookProvider :=
  set_tableOfContentPaths
    ["/ws/demo/_data/toc.yml"; "/ws/broken/_data/toc.yml"; "/ws/other/_data/toc.yml"]
    (new_provider false).



(** Texts for the examples about projects. *)
Definition demo_texts : ProjectTexts :=
  {| newSqlProjectTemplate :=
       "<Name>@@PROJECT_NAME@@</Name><ProjectGuid>{@@PROJECT_GUID@@}</ProjectGuid>";
     sqlprojExtension := ".sqlproj";
     projectAlreadyExists := fun name folder =>
       "A project named " +:+ name +:+ " already exists in " +:+ folder +:+ "." |}.

Definition demo_arc_host : ArcHost :=
  {| model_equals := fun a b =>
       String.eqb (url (info a)) (url (info b))
       && String.eqb (username (info a)) (username (info b));
     node_getChildren := fun node =>
       match node with
       | ControllerNode _ => Returned [ResourceNode "postgres"]
       | _ => Returned []
       end |}.

(** What one turn of the loop of [getSections] pushes, as a list. *)
Definition pushed_list (pushed : option BookTreeItem) : list BookTreeItem :=
  match pushed with Some n => [n] | None => [] end.

(** No dollar sign in a text. *)
Fixpoint no_dollar (s : string) : bool :=
  match s with
  | EmptyString => true
  | String c rest => negb (Ascii.eqb c "$") && no_dollar rest
  end.

(** ** [BookTreeViewProvider.getNavigation] *)

(** What the method reads of the [vscode.Uri] it is given. *)
Record Uri : Type := { scheme : string; fsPath : string }.

(** How a returned [Uri] was made:
    [vscode.Uri.parse(text).with({ scheme: 'untitled' })] or
    [vscode.Uri.file(text)]. *)
Inductive MadeUri : Type :=
| ParsedAsUntitled (text : string)
| FileUri (text : string).

Record NavigationResult : Type := {
  hasNavigation : bool;
  previous : option MadeUri;
  next : option MadeUri
}.

(** The getters [previousUri] and [nextUri] of a tree item; class
    [BookTreeItem] is not among the sources. *)
Class ItemLinks := {
  previousUri : BookTreeItem -> option string;
  nextUri : BookTreeItem -> option string
}.

Section Navigation.
Context `{NodePath} `{ItemLinks}.

(** [link ? (untitled ? Uri.parse(link).with(...) : Uri.file(link)) : undefined];
    an empty text is falsy. *)
Definition made_link (untitled_mode : bool) (link : option string) : option MadeUri :=
  match link with
  | None => None
  | Some text =>
      if String.eqb text EmptyString then None
      else Some (if untitled_mode then ParsedAsUntitled text else FileUri text)
  end.

Definition navigation_key (uri : Uri) : string :=
  if negb (String.eqb (scheme uri) "untitled") then fsPath uri
  else path_basename (fsPath uri).

Definition getNavigation (st : BookProvider) (uri : Uri) : NavigationResult :=
  match _allNotebooks st !! navigation_key uri with
  | Some notebook =>
      {| hasNavigation := true;
         previous := made_link (_openAsUntitled st) (previousUri notebook);
         next := made_link (_openAsUntitled st) (nextUri notebook) |}
  | None => {| hasNavigation := false; previous := None; next := None |}
  end.
End Navigation.

(** ** [BookTreeViewProvider.findNextUntitledFileName] *)

(** [`${idx}`] *)
Definition decimal (idx : nat) : string := NilZero.string_of_uint (Nat.to_uint idx).

(** [`${baseName}${suffix}`] with [suffix = idx === 0 ? '' : `-${idx}`] *)
Definition untitled_title (baseName : string) (idx : nat) : string :=
  baseName +:+ (if (idx =? 0)%nat then EmptyString else "-" +:+ decimal idx).

(** The [do ... while (!isEditorTitleFree(title))] loop. [isEditorTitleFree]
    of [../common/utils] is not among the sources: a title is free when it
    is not in [taken], the finite set of titles of the open untitled
    documents. [fuel] bounds the number of further turns. *)
Fixpoint findNext_loop (taken : gset string) (baseName : string) (fuel idx : nat)
  : option string :=
  let title := untitled_title baseName idx in
  if bool_decide (title ∈ taken) then
    match fuel with
    | O => None
    | S fuel' => findNext_loop taken baseName fuel' (S idx)
    end
  else Some title.

(** As many further turns as there are titles taken are allowed: that is
    always enough, see [findNextUntitledFileName_free]. *)
Definition findNextUntitledFileName `{NodePath} (taken : gset string)
    (filePath : string) : option string :=
  findNext_loop taken (path_basename filePath) (size taken) 0.

(** ** Invariant of the throttle *)

(** The provider holds the handle of every pending timer, of which there
    is at most one. *)
Definition throttle_inv (sw : BookProvider * Clock) : Prop :=
  timers (snd sw) = []
  \/ exists tm, timers (snd sw) = [tm] /\ _throttleTimer (fst sw) = Some (handle tm).

(** ** [ProjectsController.openProject] and [closeProject] *)

(** What the controller uses of a [Project] of [../models/project]: the
    path of its file and its data sources (here their names).
    [projectId] tells two [Project] objects apart the way [!==] does. *)
Record Project : Type := {
  projectId : nat;
  projectFilePath : string;
  dataSources : list string
}.

(** How an awaited call inside the [try] block of [openProject] ends:
    with a value, with a [NoDataSourcesFileError], or with another
    error. *)
Inductive Awaited (A : Type) : Type :=
| Fulfilled (a : A)
| NoDataSourcesFile
| Failed (message : string).
Arguments Fulfilled {A} a.
Arguments NoDataSourcesFile {A}.
Arguments Failed {A} message.

(** The field [projects], a counter for the objects made by
    [new Project(...)], the lists given to [projectTreeViewProvider.load]
    and the texts given to [showInformationMessage] and
    [showErrorMessage]. *)
Record ProjectsController : Type := {
  projects : list Project;
  nextProjectId : nat;
  treeLoads : list (list Project);
  informationMessages : list string;
  errorMessages : list string
}.

Definition new_controller : ProjectsController :=
  {| projects := []; nextProjectId := 0; treeLoads := [];
     informationMessages := []; errorMessages := [] |}.

(** [this.projectTreeViewProvider.load(this.projects)] *)
Definition refreshProjectsTree (c : ProjectsController) : ProjectsController :=
  {| projects := projects c;
     nextProjectId := nextProjectId c;
     treeLoads := treeLoads c ++ [projects c];
     informationMessages := informationMessages c;
     errorMessages := errorMessages c |}.

Definition set_projects (l : list Project) (next : nat) (c : ProjectsController)
  : ProjectsController :=
  {| projects := l;
     nextProjectId := next;
     treeLoads := treeLoads c;
     informationMessages := informationMessages c;
     errorMessages := errorMessages c |}.

Definition showInformationMessage (text : string) (c : ProjectsController)
  : ProjectsController :=
  {| projects := projects c;
     nextProjectId := nextProjectId c;
     treeLoads := treeLoads c;
     informationMessages := informationMessages c ++ [text];
     errorMessages := errorMessages c |}.

Definition showErrorMessage (text : string) (c : ProjectsController)
  : ProjectsController :=
  {| projects := projects c;
     nextProjectId := nextProjectId c;
     treeLoads := treeLoads c;
     informationMessages := informationMessages c;
     errorMessages := errorMessages c ++ [text] |}.

(** Texts and names of [../common/constants] used below. *)
Class ControllerTexts := {
  projectAlreadyOpened : string -> string;
  sqlFileExtension : string;
  cannotResolvePath : string -> string
}.

Section OpenProject.
Context `{ControllerTexts}.

(** [readProjFile] is how [await newProject.readProjFile()] ends, [load]
    how [await dataSources.load(dataSourcesFilePath)] ends. The new
    project is pushed between the two, and the tree is refreshed only
    when the [try] block is left without an error rethrown. *)
Definition openProject (projectFile : string) (readProjFile : Awaited unit)
    (load : Awaited (list string)) (c : ProjectsController)
  : Outcome Project * ProjectsController :=
  match List.find (fun proj => String.eqb (projectFilePath proj) projectFile)
          (projects c) with
  | Some proj =>
      (Returned proj, showInformationMessage (projectAlreadyOpened projectFile) c)
  | None =>
      let newProject :=
        {| projectId := nextProjectId c;
           projectFilePath := projectFile;
           dataSources := [] |} in
      let made := set_projects (projects c) (S (nextProjectId c)) c in
      match readProjFile with
      | Failed e => (Thrown e, made)
      | NoDataSourcesFile => (Returned newProject, refreshProjectsTree made)
      | Fulfilled _ =>
          let pushed p := set_projects (projects c ++ [p]) (S (nextProjectId c)) c in
          match load with
          | Fulfilled sources =>
              let loadedProject :=
                {| projectId := nextProjectId c;
                   projectFilePath := projectFile;
                   dataSources := sources |} in
              (Returned loadedProject, refreshProjectsTree (pushed loadedProject))
          | NoDataSourcesFile =>
              (Returned newProject, refreshProjectsTree (pushed newProject))
          | Failed e => (Thrown e, pushed newProject)
          end
      end
  end.
End OpenProject.

(** What [getProjectContextFromTreeNode] reads of a tree node: the project
    of its root when the root is a [ProjectRootTreeItem], and the path of
    its uri. *)
Record ProjectTreeNode : Type := {
  rootProject : option Project;
  uriPath : string
}.

Definition getProjectContextFromTreeNode (treeNode : option ProjectTreeNode)
  : Outcome Project :=
  match treeNode with
  | None => Thrown "TODO: prompt for which project when invoked via command pallet"
  | Some node =>
      match rootProject node with
      | Some project => Returned project
      | None =>
          Thrown ("Unable to establish project context.  Command invoked from unexpected location: "
                  +:+ uriPath node)
      end
  end.

Definition closeProject (treeNode : option ProjectTreeNode) (c : ProjectsController)
  : Outcome unit * ProjectsController :=
  match getProjectContextFromTreeNode treeNode with
  | Thrown e => (Thrown e, c)
  | Returned project =>
      (Returned tt,
       refreshProjectsTree
         (set_projects
            (List.filter (fun e => negb (projectId e =? projectId project)%nat)
               (projects c))
            (nextProjectId c) c))
  end.

(** The controller keeps distinct objects with distinct paths, all made
    by its own [new Project(...)]. *)
Definition controller_ok (c : ProjectsController) : Prop :=
  NoDup (map projectFilePath (projects c))
  /\ NoDup (map projectId (projects c))
  /\ Forall (fun p => projectId p < nextProjectId c) (projects c).

(** ** [ProjectsController.promptForNewObjectName] *)

(** [itemType.friendlyName.replace(new RegExp('\s', 'g'), '') + '1']: in a
    string literal [\s] is the letter s. *)
Definition suggestedName (friendlyName : string) : string :=
  js_replace_global friendlyName "s" EmptyString +:+ "1".

Fixpoint filter_string (keep : ascii -> bool) (s : string) : string :=
  match s with
  | EmptyString => EmptyString
  | String c rest =>
      if keep c then String c (filter_string keep rest) else filter_string keep rest
  end.

(** ** [ProjectsController.generateList] *)

(** What [fs.stat] and [fs.readdir] tell of a path: a file, a directory
    with its entries in the order [readdir] gives them, or something that
    is neither. *)
Unset Elimination Schemes.
Inductive FsTree : Type :=
| FileT
| DirT (entries : list (string * FsTree))
| OtherT.
Set Elimination Schemes.

Section GenerateList.
Context `{NodePath} `{ControllerTexts}.

Definition child_of (filepath : string) (entry : string * FsTree) : string * FsTree :=
  (path_join [filepath; fst entry], snd entry).

(** The body of the [do ... while] loop. [files] is the array with its
    last element first, so that [pop] takes the head and the entries of a
    directory, pushed in order, end up reversed in front. A stack entry
    carries the tree that its path names. *)
Definition generateList_turn (files : list (string * FsTree))
    (fileFolderList : list string) : list (string * FsTree) * list string :=
  match files with
  | [] => ([], fileFolderList)
  | (filepath, t) :: rest =>
      if String.eqb filepath EmptyString then (rest, fileFolderList)
      else
        match t with
        | DirT entries =>
            (rev (map (child_of filepath) entries) ++ rest,
             fileFolderList ++ [filepath])
        | FileT => (rest, fileFolderList ++ [filepath])
        | OtherT => (rest, fileFolderList)
        end
  end.

(** [do { ... } while (files.length !== 0)], with a bound on the turns. *)
Fixpoint generateList_loop (fuel : nat) (files : list (string * FsTree))
    (fileFolderList : list string) : option (list string) :=
  match fuel with
  | O => None
  | S fuel' =>
      let '(files', list') := generateList_turn files fileFolderList in
      match files' with
      | [] => Some list'
      | _ :: _ => generateList_loop fuel' files' list'
      end
  end.

Fixpoint tree_size (t : FsTree) : nat :=
  match t with
  | DirT entries =>
      S ((fix sum (es : list (string * FsTree)) : nat :=
            match es with
            | [] => 0
            | e :: es' => tree_size (snd e) + sum es'
            end) entries)
  | FileT | OtherT => 1
  end.

(** [tree_at p] is the tree at path [p], if the path exists
    ([utils.exists]). The walk is given as many turns as the tree has
    nodes: that is enough, see [generateList_lists_tree]. The second
    component is the text shown as an error, if any. *)
Definition generateList (tree_at : string -> option FsTree) (absolutePath : string)
  : option (list string) * option string :=
  match tree_at absolutePath with
  | Some t => (generateList_loop (tree_size t) [(absolutePath, t)] [], None)
  | None =>
      match tree_at (absolutePath +:+ sqlFileExtension) with
      | Some t =>
          (generateList_loop (tree_size t) [(absolutePath +:+ sqlFileExtension, t)] [],
           None)
      | None => (Some [], Some (cannotResolvePath absolutePath))
      end
  end.

(** The files and folders of a tree: a folder, then what is under its
    entries, the last entry first. *)
Fixpoint listing (filepath : string) (t : FsTree) : list string :=
  if String.eqb filepath EmptyString then []
  else
    match t with
    | FileT => [filepath]
    | OtherT => []
    | DirT entries =>
        filepath
        :: (fix under (es : list (string * FsTree)) : list string :=
              match es with
              | [] => []
              | e :: es' => under es' ++ listing (path_join [filepath; fst e]) (snd e)
              end) entries
    end.

(** The number of files and folders in a tree. *)
Fixpoint count_entries (t : FsTree) : nat :=
  match t with
  | FileT => 1
  | OtherT => 0
  | DirT entries =>
      S ((fix sum (es : list (string * FsTree)) : nat :=
            match es with
            | [] => 0
            | e :: es' => count_entries (snd e) + sum es'
            end) entries)
  end.
End GenerateList.

(** Induction on a tree with the hypothesis for the trees under a
    directory. *)
Definition FsTree_nested_ind (P : FsTree -> Prop)
  (Hfile : P FileT)
  (Hother : P OtherT)
  (Hdir : forall entries, Forall (fun e => P (snd e)) entries -> P (DirT entries)) :
  forall t, P t :=
  fix rec (t : FsTree) : P t :=
    match t with
    | FileT => Hfile
    | OtherT => Hother
    | DirT entries =>
        Hdir entries
          ((fix all (l : list (string * FsTree)) : Forall (fun e => P (snd e)) l :=
              match l with
              | [] => @List.Forall_nil _ (fun e => P (snd e))
              | e :: l' =>
                  @List.Forall_cons _ (fun e => P (snd e)) e l' (rec (snd e)) (all l')
              end) entries)
    end.

(** The stack of the walk: its size and what is listed from it. *)
Definition forest_size (files : list (string * FsTree)) : nat :=
  list_sum (map (fun e => tree_size (snd e)) files).

Definition forest_listing `{NodePath} (files : list (string * FsTree)) : list string :=
  flat_map (fun e => listing (fst e) (snd e)) files.

(** A small tree for the examples. *)
Definition demo_tree : FsTree :=
  DirT [("Tables", DirT [("Orders.sql", FileT); ("Items.sql", FileT)]);
        ("socket", OtherT);
        ("Views", DirT [])].

Definition demo_tree_at (path : string) : option FsTree :=
  if String.eqb path "/ws/db" then Some demo_tree
  else if String.eqb path "/ws/script.sql" then Some FileT
  else None.

(** ** [AzureArcTreeDataProvider.getPassword] *)


(** ** Vocabulary for further statements about the book provider *)

(** An entry that [flattenArray] appends as it is: neither [null] nor a
    list, and without a list under [sections]. *)
Definition flat_leaf (v : Yaml) : bool :=
  match v with
  | YNull | YSeq _ => false
  | YMap fields => negb (isArray (assoc "sections" fields))
  | YBool _ | YNum _ | YStr _ => true
  end.

(** [sections[i].url] is truthy. *)
Definition url_truthy (s : Yaml) : bool :=
  match member s "url" with
  | Returned u => truthy u
  | Thrown _ => false
  end.

(** [sections[i].url] is truthy and not a string. *)
Definition url_not_text (s : Yaml) : bool :=
  match member s "url" with
  | Returned (Some (YStr _)) => false
  | Returned u => truthy u
  | Thrown _ => false
  end.

(** A key of the index that holds one of the Notebook items pushed so
    far. *)
Definition key_written (index : gmap string BookTreeItem) (pushed : list BookTreeItem)
    (key : string) : Prop :=
  exists nb, index !! key = Some nb /\ In nb pushed /\ item_type nb = Notebook.

(** What every item made by [getSections (_, toc, _, r)] carries. *)
Definition item_of_book (toc : list Yaml) (r : string) (mode : bool)
    (n : BookTreeItem) : Prop :=
  root (book n) = r /\ tableOfContents (book n) = toc
  /\ untitled (book n) = mode
  /\ treeItemCollapsibleState (book n) = Collapsed.

(** The index after a Notebook item [n] for the file [p] was stored. *)
Definition index_with `{NodePath} (mode : bool) (p : string) (n : BookTreeItem)
    (index : gmap string BookTreeItem) : gmap string BookTreeItem :=
  if mode then <[path_basename p := n]> (<[p := n]> index) else <[p := n]> index.

(** Entries of other kinds for the examples: a link, a heading without
    [url], a page whose [url] YAML reads as a number. *)
Definition link_section : Yaml :=
  YMap [("title", YStr "Docs"); ("url", YStr "https://example.org"); ("external", YBool true)].

Definition heading_section : Yaml := YMap [("title", YStr "Part one")].

Definition numeric_section : Yaml := YMap [("title", YStr "Year"); ("url", YNum 2020)].

(** The items of [getSections] on the small book in either mode. *)
Definition demo_nodes (mode : bool) (sections : list Yaml) : list BookTreeItem :=
  match fst (getSections (H:=posix_path) (H0:=demo_host) demo_disk
               (new_provider mode) [] sections "/ws/demo") with
  | Returned l => l
  | Thrown _ => []
  end.

(** The provider after [getSections] on the small book. *)
Definition demo_after (mode : bool) (sections : list Yaml) : BookProvider :=
  snd (getSections (H:=posix_path) (H0:=demo_host) demo_disk
         (new_provider mode) [] sections "/ws/demo").

(** Texts for the examples about the controller. *)
Definition demo_controller_texts : ControllerTexts :=
  {| projectAlreadyOpened := fun path => "Project '" +:+ path +:+ "' is already opened.";
     sqlFileExtension := ".sql";
     cannotResolvePath := fun path => "Cannot resolve path " +:+ path |}.

(** The tree node of a project's root. *)
Definition node_of (project : Project) : ProjectTreeNode :=
  {| rootProject := Some project; uriPath := "/" |}.

(** Items without links, for the examples. *)
Definition demo_links : ItemLinks :=
  {| previousUri := fun _ => None; nextUri := fun _ => None |}.

(** The name and the path of the project file that [createNewProject]
    checks and writes. *)
Definition project_file_name `{ProjectTexts} (newProjName : string) : string :=
  if endsWith (toLowerCase newProjName) sqlprojExtension
  then newProjName
  else newProjName +:+ sqlprojExtension.




(** A step of the pattern that commutes with upper-casing and consumes a
    known number of characters. *)
Definition uuid_step (n : nat) (f : string -> option string) : Prop :=
  forall s,
    f (toUpperCase s) = option_map toUpperCase (f s)
    /\ forall r, f s = Some r -> String.length s = (n + String.length r)%nat.

(** The saved list mirrors the tree. *)
Definition arc_saved (p : ArcProvider) : Prop :=
  memento p = map (fun node => info (model node)) (_controllerNodes p).

(** The nodes of the tree are distinct objects made by the provider. *)
Definition arc_ok (p : ArcProvider) : Prop :=
  NoDup (map nodeId (_controllerNodes p))
  /\ Forall (fun node => nodeId node < nextNodeId p) (_controllerNodes p).

(** A provider that has loaded two saved controllers. *)
Definition demo_arc_provider : ArcProvider :=
  let saved := [ {| url := "https://arc"; username := "admin"; rememberPassword := true |};
                 {| url := "https://arc2"; username := "ops"; rememberPassword := false |} ] in
  snd (loadSavedControllers (Returned saved) (new_arc_provider saved)).

(* ================================================================= *)
(** * Properties *)

(** *** Equations of [flattenArray] *)

Lemma sections_search (fields : list (string * Yaml)) (title : option Yaml) :
  (fix sections (fs : list (string * Yaml)) : option (Outcome (list Yaml)) :=
     match fs with
     | [] => None
     | (k, v) :: fs' =>
         if String.eqb k "sections"
         then match v with
              | YSeq _ => Some (flattenArray v title)
              | _ => None
              end
         else sections fs'
     end) fields
  = match assoc "sections" fields with
    | Some (YSeq l) => Some (flattenArray (YSeq l) title)
    | _ => None
    end.
Proof.
  induction fields as [|[k v] fields IH]; [reflexivity|].
  cbn [assoc]. destruct (String.eqb k "sections"); [|exact IH].
  destruct v; reflexivity.
Qed.

Lemma flattenArray_seq (items : list Yaml) (title : option Yaml) :
  flattenArray (YSeq items) title
  = rethrow (reduce (flatten_step title) items []) (invalid_toc_message title).
Proof.
  cbn [flattenArray]. generalize (@nil Yaml).
  induction items as [|val items IH]; intros acc; [reflexivity|].
  cbn [reduce]. destruct val as [| b | n | s | l | fields];
    try (rewrite IH; reflexivity).
  - reflexivity.
  - rewrite sections_search. unfold flatten_step. cbn [member mbind Outcome_bind].
    destruct (assoc "sections" fields) as [[| b | n | s | l | fs]|];
      cbn [isArray]; try (rewrite IH; reflexivity).
    destruct (flattenArray (YSeq l) title) as [sub|e]; [|reflexivity].
    rewrite IH. reflexivity.
Qed.


Lemma valid_node_map (fields : list (string * Yaml)) :
  valid_node (YMap fields)
  = match assoc "sections" fields with
    | None => true
    | Some (YSeq l) => valid_toc l
    | Some _ => false
    end.
Proof.
  cbn [valid_node]. induction fields as [|[k v] fields IH]; [reflexivity|].
  cbn [assoc]. destruct (String.eqb k "sections"); [|exact IH].
  destruct v; reflexivity.
Qed.

Lemma assoc_In (k : string) (fields : list (string * Yaml)) (v : Yaml) :
  assoc k fields = Some v -> exists k', In (k', v) fields.
Proof.
  induction fields as [|[k' x] fields IH]; cbn [assoc]; [discriminate|].
  destruct (String.eqb k' k).
  - intros [= ->]. exists k'. now left.
  - intros H. destruct (IH H) as [k'' Hin]. exists k''. now right.
Qed.

(** *** The flattening is the pre-order *)

Section Flatten.
Variable title : option Yaml.

Lemma flatten_step_valid (acc : list Yaml) (n : Yaml) :
  valid_node n = true ->
  flattens_to_preorder title (sections_of n) ->
  exists sub, flatten_step title acc n = Returned (acc ++ n :: sub)
              /\ Preorder (sections_of n) sub.
Proof.
  destruct n as [| b | z | s | l | fields]; try discriminate;
    try (intros _ _; exists []; split; [reflexivity | constructor]).
  rewrite valid_node_map. unfold flatten_step, sections_of.
  cbn [member mbind Outcome_bind].
  destruct (assoc "sections" fields) as [[| b | z | s | l | fs]|];
    try discriminate; intros _ (sub & Hflat & Hpre); cbn [isArray js_concat].
  - exists sub. rewrite Hflat. cbn. rewrite <- app_assoc. now split.
  - exists []. inversion Hpre; subst. split; [reflexivity | constructor].
Qed.

Lemma reduce_valid (items : list Yaml) :
  Forall (fun n => valid_node n = true /\ flattens_to_preorder title (sections_of n)) items ->
  forall acc, exists out,
    reduce (flatten_step title) items acc = Returned (acc ++ out)
    /\ Preorder items out.
Proof.
  induction 1 as [|n items [Hv Hn] _ IH]; intros acc.
  - exists []. rewrite app_nil_r. split; [reflexivity | constructor].
  - destruct (flatten_step_valid acc n Hv Hn) as (sub & Hstep & Hsub).
    destruct (IH (acc ++ n :: sub)) as (out & Hred & Hout).
    exists (n :: sub ++ out). cbn [reduce]. rewrite Hstep.
    cbn [mbind Outcome_bind]. rewrite Hred. split.
    + f_equal. rewrite <- app_assoc. reflexivity.
    + now constructor.
Qed.

Lemma flatten_nested (v : Yaml) :
  (valid_node v = true -> flattens_to_preorder title (sections_of v))
  /\ (forall l, v = YSeq l -> valid_toc l = true -> flattens_to_preorder title l).
Proof.
  induction v as [| b | z | s | items IH | fields IH] using Yaml_nested_ind;
    split; try discriminate;
    try (intros _; exists []; split; [reflexivity | constructor]).
  - intros l [= <-] Hvalid. unfold flattens_to_preorder.
    rewrite flattenArray_seq.
    assert (Hall : Forall (fun n => valid_node n = true
                                    /\ flattens_to_preorder title (sections_of n)) items).
    { unfold valid_toc in Hvalid. rewrite forallb_forall in Hvalid.
      rewrite List.Forall_forall in IH |- *. intros n Hin. split.
      - now apply Hvalid.
      - apply (proj1 (IH n Hin)). now apply Hvalid. }
    destruct (reduce_valid items Hall []) as (out & Hred & Hout).
    exists out. rewrite Hred. now split.
  - rewrite valid_node_map. unfold sections_of.
    destruct (assoc "sections" fields) as [[| b | z | s | l | fs]|] eqn:Hassoc;
      try discriminate.
    + intros Hvalid. destruct (assoc_In _ _ _ Hassoc) as [k Hin].
      rewrite List.Forall_forall in IH.
      exact (proj2 (IH _ Hin) l eq_refl Hvalid).
    + intros _. exists []. split; [reflexivity | constructor].
Qed.

Lemma flattenArray_valid (doc : list Yaml) :
  valid_toc doc = true -> flattens_to_preorder title doc.
Proof. intros H. exact (proj2 (flatten_nested (YSeq doc)) doc eq_refl H). Qed.
End Flatten.

(** *** What a pre-order sequence looks like *)

Lemma Preorder_total_fun (l out out' : list Yaml) :
  Preorder l out -> Preorder l out' -> out = out'.
Proof.
  intros H. revert out'.
  induction H as [|n rest sub out _ IHs _ IHr]; intros out' H'; inversion H'; subst.
  - reflexivity.
  - f_equal. f_equal; auto.
Qed.

Lemma Preorder_root_block (l out : list Yaml) (n : Yaml) :
  Preorder l out -> In n l ->
  exists pre sub post,
    out = pre ++ n :: sub ++ post /\ Preorder (sections_of n) sub.
Proof.
  induction 1 as [|m rest sub out Hsub _ Hout IH]; intros Hin; [destruct Hin|].
  destruct Hin as [->|Hin].
  - exists [], sub, out. now split.
  - destruct (IH Hin) as (pre & sub' & post & -> & Hsub').
    exists (m :: sub ++ pre), sub', post. split; [|exact Hsub'].
    cbn. now rewrite <- app_assoc.
Qed.

Lemma Preorder_node_block (l out : list Yaml) (n : Yaml) :
  Preorder l out -> toc_node l n ->
  exists pre sub post,
    out = pre ++ n :: sub ++ post /\ Preorder (sections_of n) sub.
Proof.
  intros Hpre Hnode. induction Hnode as [n Hin | p n _ IH Hin].
  - now apply Preorder_root_block with l.
  - destruct IH as (pre & subp & post & -> & Hsubp).
    destruct (Preorder_root_block _ _ n Hsubp Hin) as (pre' & sub & post' & -> & Hsub).
    exists (pre ++ p :: pre'), sub, (post' ++ post). split; [|exact Hsub].
    rewrite <- !app_assoc. cbn. now rewrite <- !app_assoc.
Qed.

Lemma toc_node_cons (n : Yaml) (rest : list Yaml) (d : Yaml) :
  toc_node (n :: rest) d <-> d = n \/ toc_node (sections_of n) d \/ toc_node rest d.
Proof.
  split.
  - induction 1 as [d [<-|Hin] | p d _ IH Hin].
    + now left.
    + right; right. now constructor.
    + destruct IH as [-> | [IH | IH]].
      * right; left. now constructor.
      * right; left. now apply toc_nested with p.
      * right; right. now apply toc_nested with p.
  - intros [-> | [H | H]].
    + constructor. now left.
    + induction H as [d Hin | p d _ IH Hin].
      * apply toc_nested with n; [constructor; now left | exact Hin].
      * now apply toc_nested with p.
    + induction H as [d Hin | p d _ IH Hin].
      * constructor. now right.
      * now apply toc_nested with p.
Qed.

Lemma Preorder_members (l out : list Yaml) :
  Preorder l out -> forall d, In d out <-> toc_node l d.
Proof.
  induction 1 as [|n rest sub out _ IHs _ IHr]; intros d.
  - split; [intros [] | intros H].
    induction H as [d [] | p d _ IH _]; exact IH.
  - rewrite toc_node_cons. cbn [In]. rewrite in_app_iff, IHs, IHr.
    split; intros [H | H]; auto.
Qed.

(** ** [getSections] *)

Section GetSections.
Context `{NodePath} `{BookHost}.
Variables (disk : FileSystem) (toc : list Yaml) (r : string).

Lemma leaf_url_map (s : Yaml) (u : string) :
  leaf_url s = Some u ->
  exists fields, s = YMap fields /\ assoc "url" fields = Some (YStr u)
                 /\ String.eqb u EmptyString = false.
Proof.
  unfold leaf_url, member. destruct s as [| | | | |fields]; try discriminate.
  destruct (assoc "url" fields) as [[| | |u'| |]|] eqn:Hassoc; try discriminate.
  destruct (String.eqb u' EmptyString) eqn:E; [discriminate|].
  intros [= <-]. exists fields. split; [reflexivity|]. split; [exact Hassoc | exact E].
Qed.

Lemma section_step_notebook (st : BookProvider) (s : Yaml) (u : string) :
  leaf_url s = Some u ->
  external_set s = false ->
  existsSync disk (notebook_path r u) = true ->
  exists nb st',
    section_step disk toc r st s = Returned (Some nb, st')
    /\ item_type nb = Notebook /\ page (book nb) = s
    /\ _allNotebooks st' !! notebook_path r u = Some nb.
Proof.
  intros Hurl Hext Hnb.
  destruct (leaf_url_map s u Hurl) as (fields & -> & Hu & Hne).
  unfold external_set in Hext. cbn [member] in Hext.
  unfold section_step, item. cbn [member mbind Outcome_bind].
  rewrite Hu. cbn [truthy url_concat mbind Outcome_bind]. rewrite Hne, Hext.
  cbn [negb]. fold (notebook_path r u). rewrite Hnb.
  eexists _, _. split; [reflexivity|]. split; [reflexivity|].
  split; [reflexivity|]. cbn [_allNotebooks set_allNotebooks].
  destruct (_openAsUntitled st).
  - destruct (decide (path_basename (notebook_path r u) = notebook_path r u)) as [->|Hd].
    + now rewrite lookup_insert_eq.
    + rewrite lookup_insert_ne by exact Hd. now rewrite lookup_insert_eq.
  - now rewrite lookup_insert_eq.
Qed.


(** Whatever a section pushes is an item for that section, and a
    Markdown item is pushed only after the notebook probe failed and the
    markdown probe succeeded. *)
Lemma section_step_pushed (st st' : BookProvider) (s : Yaml) (n : BookTreeItem) :
  section_step disk toc r st s = Returned (Some n, st') ->
  page (book n) = s
  /\ (item_type n = Markdown ->
      exists u, leaf_url s = Some u /\ external_set s = false
                /\ existsSync disk (notebook_path r u) = false
                /\ existsSync disk (markdown_path r u) = true).
Proof.
  unfold section_step, item, leaf_url, external_set, notebook_path, markdown_path.
  destruct s as [| | | | |fields]; cbn [member mbind Outcome_bind truthy];
    try discriminate.
  destruct (assoc "url" fields) as [url|]; [|cbn [truthy]; discriminate].
  destruct (truthy (Some url)) eqn:Htruthy; [|discriminate].
  destruct (truthy (assoc "external" fields)) eqn:Hext.
  { intros [= <- _]. split; [reflexivity | intros Hty; now cbv [item_type type book] in Hty]. }
  destruct url as [| | |u| |]; cbn [url_concat mbind Outcome_bind]; try discriminate.
  cbn [truthy] in Htruthy. apply negb_true_iff in Htruthy. rewrite Htruthy.
  destruct (existsSync disk (path_join [r; "content"; u +:+ ".ipynb"])) eqn:Hnb.
  { intros [= <- _]. split; [reflexivity | intros Hty; now cbv [item_type type book] in Hty]. }
  destruct (existsSync disk (path_join [r; "content"; u +:+ ".md"])) eqn:Hmd;
    [|discriminate].
  intros [= <- _]. split; [reflexivity|]. intros _. now exists u.
Qed.

(** A turn of the loop reads only [_openAsUntitled] from the provider and
    does not change it: from another provider in the same mode it pushes
    the same item. *)
Lemma section_step_mode (st st' : BookProvider) (s : Yaml)
    (pushed : option BookTreeItem) :
  section_step disk toc r st s = Returned (pushed, st') ->
  _openAsUntitled st' = _openAsUntitled st
  /\ forall st2, _openAsUntitled st2 = _openAsUntitled st ->
       exists st2', section_step disk toc r st2 s = Returned (pushed, st2').
Proof.
  unfold section_step, item.
  destruct s as [| | | | |fields]; cbn [member mbind Outcome_bind truthy];
    try discriminate;
    try (intros [= <- <-]; split; [reflexivity | intros st2 _; now eexists]).
  destruct (truthy (assoc "url" fields));
    [| intros [= <- <-]; split; [reflexivity | intros st2 _; now eexists]].
  destruct (truthy (assoc "external" fields)).
  { intros [= <- <-]. split; [reflexivity|]. intros st2 ->. now eexists. }
  destruct (url_concat (assoc "url" fields) ".ipynb") as [nbf|];
    cbn [mbind Outcome_bind]; [|discriminate].
  destruct (url_concat (assoc "url" fields) ".md") as [mdf|];
    cbn [mbind Outcome_bind]; [|discriminate].
  destruct (existsSync disk (path_join [r; "content"; nbf])).
  { intros [= <- <-]. split; [reflexivity|]. intros st2 ->. now eexists. }
  destruct (existsSync disk (path_join [r; "content"; mdf])).
  { intros [= <- <-]. split; [reflexivity|]. intros st2 ->. now eexists. }
  intros [= <- <-]. split; [reflexivity|]. intros st2 _. now eexists.
Qed.

Lemma getSections_loop_cons (s : Yaml) (rest : list Yaml)
    (acc : list BookTreeItem) (st : BookProvider) :
  getSections_loop disk toc (s :: rest) r acc st
  = match section_step disk toc r st s with
    | Thrown e => (Thrown e, st)
    | Returned (pushed, st') =>
        getSections_loop disk toc rest r (acc ++ pushed_list pushed) st'
    end.
Proof.
  cbn [getSections_loop]. destruct (section_step disk toc r st s) as [[[n|] st']|e];
    cbn [pushed_list]; rewrite ?app_nil_r; reflexivity.
Qed.

(** The items already pushed are kept in front of the new ones. *)
Lemma getSections_loop_shift (sections : list Yaml) (acc : list BookTreeItem)
    (st : BookProvider) :
  getSections_loop disk toc sections r acc st
  = match getSections_loop disk toc sections r [] st with
    | (Returned new, st') => (Returned (acc ++ new), st')
    | (Thrown e, st') => (Thrown e, st')
    end.
Proof.
  revert acc st. induction sections as [|s rest IH]; intros acc st.
  - cbn. now rewrite app_nil_r.
  - rewrite !getSections_loop_cons.
    destruct (section_step disk toc r st s) as [[pushed st1]|e]; [|reflexivity].
    rewrite (IH (acc ++ pushed_list pushed)), (IH ([] ++ pushed_list pushed)).
    destruct (getSections_loop disk toc rest r [] st1) as [[new|e] st'];
      [|reflexivity].
    cbn [app]. now rewrite app_assoc.
Qed.

Lemma getSections_loop_acc (sections : list Yaml) (acc : list BookTreeItem)
    (st st' : BookProvider) (out : list BookTreeItem) :
  getSections_loop disk toc sections r acc st = (Returned out, st') ->
  exists new, out = acc ++ new
              /\ getSections_loop disk toc sections r [] st = (Returned new, st').
Proof.
  rewrite getSections_loop_shift.
  destruct (getSections_loop disk toc sections r [] st) as [[new|e] st1];
    [|discriminate].
  intros [= <- <-]. now exists new.
Qed.

Lemma getSections_loop_prepend (sections : list Yaml) (acc : list BookTreeItem)
    (st st' : BookProvider) (new : list BookTreeItem) :
  getSections_loop disk toc sections r [] st = (Returned new, st') ->
  getSections_loop disk toc sections r acc st = (Returned (acc ++ new), st').
Proof. intros Hrun. now rewrite getSections_loop_shift, Hrun. Qed.

Lemma getSections_loop_mode (sections : list Yaml) (st st' : BookProvider)
    (out : list BookTreeItem) :
  getSections_loop disk toc sections r [] st = (Returned out, st') ->
  _openAsUntitled st' = _openAsUntitled st
  /\ forall st2, _openAsUntitled st2 = _openAsUntitled st ->
       exists st2', getSections_loop disk toc sections r [] st2 = (Returned out, st2').
Proof.
  revert st out. induction sections as [|s rest IH]; intros st out.
  - cbn. intros [= <- <-]. split; [reflexivity|]. intros st2 _. now eexists.
  - rewrite getSections_loop_cons.
    destruct (section_step disk toc r st s) as [[pushed st1]|e] eqn:Hstep;
      [|discriminate].
    destruct (section_step_mode _ _ _ _ Hstep) as [Hmode Hother].
    cbn [app]. intros Hrun.
    destruct (getSections_loop_acc _ _ _ _ _ Hrun) as (new & -> & Hnew).
    destruct (IH _ _ Hnew) as [Hmode' Hother']. split; [congruence|].
    intros st2 Hst2. destruct (Hother st2 Hst2) as [st3 Hstep2].
    destruct (section_step_mode _ _ _ _ Hstep2) as [Hmode3 _].
    destruct (Hother' st3) as [st4 Hrun4]; [congruence|].
    exists st4. rewrite getSections_loop_cons, Hstep2. cbn [app].
    now apply getSections_loop_prepend.
Qed.

Lemma getSections_app (l1 l2 : list Yaml) (st : BookProvider) :
  getSections disk st toc (l1 ++ l2) r
  = match getSections disk st toc l1 r with
    | (Returned out1, st1) => getSections_loop disk toc l2 r out1 st1
    | thrown => thrown
    end.
Proof.
  unfold getSections. generalize (@nil BookTreeItem) as acc0. revert st.
  induction l1 as [|s l1 IH]; intros st acc0; [reflexivity|].
  cbn [app]. rewrite !getSections_loop_cons.
  destruct (section_step disk toc r st s) as [[pushed st1]|e]; [|reflexivity].
  apply IH.
Qed.
End GetSections.

Section GetSectionsResults.
Context `{NodePath} `{BookHost}.
Variables (disk : FileSystem) (toc : list Yaml) (r : string).

Lemma getSections_loop_pushed (sections : list Yaml) (st st' : BookProvider)
    (out : list BookTreeItem) (n : BookTreeItem) :
  getSections_loop disk toc sections r [] st = (Returned out, st') ->
  In n out ->
  exists s st0 st1,
    In s sections /\ section_step disk toc r st0 s = Returned (Some n, st1).
Proof.
  revert st out. induction sections as [|s rest IH]; intros st out.
  - cbn. intros [= <- <-] [].
  - rewrite getSections_loop_cons.
    destruct (section_step disk toc r st s) as [[pushed st1]|e] eqn:Hstep;
      [|discriminate].
    cbn [app]. intros Hrun Hin.
    destruct (getSections_loop_acc _ _ _ _ _ _ _ _ Hrun) as (new & -> & Hnew).
    apply in_app_or in Hin. destruct Hin as [Hin|Hin].
    + destruct pushed as [m|]; [|destruct Hin].
      destruct Hin as [->|[]]. exists s, st, st1. split; [now left | exact Hstep].
    + destruct (IH _ _ Hnew Hin) as (s' & st0 & st2 & Hs' & Hstep').
      exists s', st0, st2. split; [now right | exact Hstep'].
Qed.

Lemma section_step_errors (st st' : BookProvider) (s : Yaml)
    (pushed : option BookTreeItem) :
  section_step disk toc r st s = Returned (pushed, st') ->
  exists extra, shownErrors st' = shownErrors st ++ extra.
Proof.
  unfold section_step, item.
  destruct (member s "url") as [url|]; cbn [mbind Outcome_bind]; [|discriminate].
  destruct (truthy url); [|intros [= _ <-]; exists []; now rewrite app_nil_r].
  destruct (member s "external") as [ext|]; cbn [mbind Outcome_bind]; [|discriminate].
  destruct (member s "title") as [sTitle|]; cbn [mbind Outcome_bind];
    [|destruct (truthy ext); [discriminate|];
      destruct (url_concat url ".ipynb"); cbn [mbind Outcome_bind]; [|discriminate];
      destruct (url_concat url ".md"); cbn [mbind Outcome_bind]; [|discriminate];
      repeat match goal with |- context [if ?b then _ else _] => destruct b end;
      discriminate].
  destruct (truthy ext); [intros [= _ <-]; exists []; now rewrite app_nil_r|].
  destruct (url_concat url ".ipynb"); cbn [mbind Outcome_bind]; [|discriminate].
  destruct (url_concat url ".md"); cbn [mbind Outcome_bind]; [|discriminate].
  destruct (existsSync disk _);
    [intros [= _ <-]; exists []; cbn; now rewrite app_nil_r|].
  destruct (existsSync disk _);
    [intros [= _ <-]; exists []; now rewrite app_nil_r|].
  intros [= _ <-]. now eexists.
Qed.

Lemma getSections_loop_errors (sections : list Yaml) (acc : list BookTreeItem)
    (st : BookProvider) :
  exists extra,
    shownErrors (snd (getSections_loop disk toc sections r acc st))
    = shownErrors st ++ extra.
Proof.
  revert acc st. induction sections as [|s rest IH]; intros acc st.
  - exists []. cbn. now rewrite app_nil_r.
  - rewrite getSections_loop_cons.
    destruct (section_step disk toc r st s) as [[pushed st1]|e] eqn:Hstep.
    + destruct (section_step_errors _ _ _ _ Hstep) as [extra1 H1].
      destruct (IH (acc ++ pushed_list pushed) st1) as [extra2 H2].
      exists (extra1 ++ extra2). now rewrite H2, H1, app_assoc.
    + exists []. cbn. now rewrite app_nil_r.
Qed.

(** Running [pre ++ leaf :: post] when [pre] and [post] on their own
    return: the turn for [leaf] happens in the provider that [pre] left. *)
Lemma getSections_around (st : BookProvider) (pre post : list Yaml) (leaf : Yaml)
    (A B : list BookTreeItem) :
  fst (getSections disk st toc pre r) = Returned A ->
  fst (getSections disk st toc post r) = Returned B ->
  exists st1,
    getSections disk st toc pre r = (Returned A, st1)
    /\ _openAsUntitled st1 = _openAsUntitled st
    /\ (forall pushed st2,
          section_step disk toc r st1 leaf = Returned (pushed, st2) ->
          exists st3,
            getSections disk st toc (pre ++ leaf :: post) r
            = (Returned (A ++ pushed_list pushed ++ B), st3)
            /\ exists extra, shownErrors st3 = shownErrors st2 ++ extra).
Proof.
  intros Hpre Hpost.
  destruct (getSections disk st toc pre r) as [o st1] eqn:Hrun1.
  cbn [fst] in Hpre. subst o. exists st1. split; [reflexivity|].
  destruct (getSections_loop_mode _ _ _ _ _ _ _ Hrun1) as [Hmode1 _].
  split; [exact Hmode1|]. intros pushed st2 Hstep.
  destruct (getSections disk st toc post r) as [o st4] eqn:Hrun2.
  cbn [fst] in Hpost. subst o.
  destruct (getSections_loop_mode _ _ _ _ _ _ _ Hrun2) as [_ Hother].
  destruct (section_step_mode _ _ _ _ _ _ _ Hstep) as [Hmode2 _].
  destruct (Hother st2) as [st3 Hrun3]; [congruence|].
  exists st3. split.
  - rewrite getSections_app, Hrun1, getSections_loop_cons, Hstep.
    rewrite (getSections_loop_prepend _ _ _ _ _ _ _ _ Hrun3).
    now rewrite <- app_assoc.
  - destruct (getSections_loop_errors post [] st2) as [extra Hextra].
    rewrite Hrun3 in Hextra. now exists extra.
Qed.
End GetSectionsResults.

Section LeafResolution.
Context `{NodePath} `{BookHost}.

(** C2. A section bearing a [url], with [external] unset, whose notebook
    and markdown files both exist gets a Notebook item, in its place
    between the items of the sections before and after it, and no item
    of the result made for that section is a Markdown item. Any
    Markdown item that [getSections] returns was made for a section
    whose notebook file does not exist and whose markdown file does. *)
Theorem getSections_notebook_preferred
    (disk : FileSystem) (st : BookProvider) (toc : list Yaml) (r : string)
    (pre post : list Yaml) (leaf : Yaml) (u : string) (A B : list BookTreeItem) :
  leaf_url leaf = Some u ->
  external_set leaf = false ->
  existsSync disk (notebook_path r u) = true ->
  existsSync disk (markdown_path r u) = true ->
  fst (getSections disk st toc pre r) = Returned A ->
  fst (getSections disk st toc post r) = Returned B ->
  (exists nb,
      fst (getSections disk st toc (pre ++ leaf :: post) r) = Returned (A ++ nb :: B)
      /\ item_type nb = Notebook /\ page (book nb) = leaf)
  /\ (forall nodes n,
        fst (getSections disk st toc (pre ++ leaf :: post) r) = Returned nodes ->
        In n nodes -> page (book n) = leaf -> item_type n = Notebook)
  /\ (forall sections nodes n,
        fst (getSections disk st toc sections r) = Returned nodes ->
        In n nodes -> item_type n = Markdown ->
        In (page (book n)) sections
        /\ exists u', leaf_url (page (book n)) = Some u'
                      /\ external_set (page (book n)) = false
                      /\ existsSync disk (notebook_path r u') = false
                      /\ existsSync disk (markdown_path r u') = true).
Proof.
  intros Hurl Hext Hnb Hmd Hpre Hpost. split; [|split].
  - destruct (getSections_around disk toc r st pre post leaf A B Hpre Hpost)
      as (st1 & _ & _ & Hrun).
    destruct (section_step_notebook disk toc r st1 leaf u Hurl Hext Hnb)
      as (nb & st2 & Hstep & Hty & Hpage & _).
    destruct (Hrun _ _ Hstep) as (st3 & Hall & _).
    exists nb. rewrite Hall. now repeat split.
  - intros nodes n Hrun Hin Hpage.
    destruct (getSections disk st toc (pre ++ leaf :: post) r) as [o st'] eqn:Hall.
    cbn [fst] in Hrun. subst o.
    destruct (getSections_loop_pushed disk toc r _ _ _ _ _ Hall Hin)
      as (s & st0 & st1 & _ & Hstep).
    destruct (section_step_pushed disk toc r _ _ _ _ Hstep) as [Hs _].
    rewrite Hpage in Hs. subst s.
    destruct (section_step_notebook disk toc r st0 leaf u Hurl Hext Hnb)
      as (nb & st2 & Hstep' & Hty & _).
    rewrite Hstep in Hstep'. now injection Hstep' as -> _.
  - intros sections nodes n Hrun Hin Hty.
    destruct (getSections disk st toc sections r) as [o st'] eqn:Hall.
    cbn [fst] in Hrun. subst o.
    destruct (getSections_loop_pushed disk toc r _ _ _ _ _ Hall Hin)
      as (s & st0 & st1 & Hs & Hstep).
    destruct (section_step_pushed disk toc r _ _ _ _ Hstep) as [Hpage Hmarkdown].
    rewrite Hpage. split; [exact Hs | now apply Hmarkdown].
Qed.

End LeafResolution.

(** ** [flattenArray] is the depth-first pre-order *)

(** C1. For a TOC document whose nodes each have [sections] absent or a
    list, [flattenArray] returns the depth-first pre-order of the tree:
    every node of the tree is followed at once by the block of exactly its
    descendants, itself in pre-order. *)
Theorem flattenArray_preorder (doc : list Yaml) (title : option Yaml) :
  valid_toc doc = true ->
  exists out,
    flattenArray (YSeq doc) title = Returned out
    /\ Preorder doc out
    /\ forall n, toc_node doc n ->
         exists pre sub post,
           out = pre ++ n :: sub ++ post
           /\ Preorder (sections_of n) sub
           /\ forall d, descendant n d <-> In d sub.
Proof.
  intros Hvalid. destruct (flattenArray_valid title doc Hvalid) as (out & Hflat & Hpre).
  exists out. split; [exact Hflat|]. split; [exact Hpre|].
  intros n Hnode.
  destruct (Preorder_node_block doc out n Hpre Hnode) as (pre & sub & post & Hout & Hsub).
  exists pre, sub, post. split; [exact Hout|]. split; [exact Hsub|].
  intros d. unfold descendant. symmetry. now apply Preorder_members.
Qed.

Lemma flattenArray_preorder_witness :
  valid_toc demo_toc = true
  /\ exists out,
       flattenArray (YSeq demo_toc) (Some (YStr "Demo")) = Returned out
       /\ Preorder demo_toc out
       /\ forall n, toc_node demo_toc n ->
            exists pre sub post,
              out = pre ++ n :: sub ++ post
              /\ Preorder (sections_of n) sub
              /\ forall d, descendant n d <-> In d sub.
Proof.
  split; [reflexivity|].
  apply (flattenArray_preorder demo_toc (Some (YStr "Demo"))). reflexivity.
Defined.

Example flattenArray_demo :
  flattenArray (YSeq demo_toc) (Some (YStr "Demo"))
  = Returned [intro_section; setup_section; ghost_section].
Proof. reflexivity. Qed.


(** ** Leaf resolution on the small book *)

Lemma getSections_notebook_preferred_witness :
  exists nb,
    fst (getSections (H:=posix_path) (H0:=demo_host) demo_disk (new_provider false) []
           ([ghost_section] ++ intro_section :: [setup_section]) "/ws/demo")
    = Returned (demo_items [ghost_section] ++ nb :: demo_items [setup_section])
    /\ item_type nb = Notebook /\ page (book nb) = intro_section.
Proof.
  apply (getSections_notebook_preferred (H:=posix_path) (H0:=demo_host)
           demo_disk (new_provider false) [] "/ws/demo"
           [ghost_section] [setup_section] intro_section "intro"
           (demo_items [ghost_section]) (demo_items [setup_section]));
    vm_compute; reflexivity.
Defined.


Example ghost_is_reported :
  shownErrors (snd (getSections (H:=posix_path) (H0:=demo_host) demo_disk
                      (new_provider false) [] demo_toc "/ws/demo"))
  = ["Missing file : Ghost"].
Proof. vm_compute. reflexivity. Qed.

(** ** [getBooks] *)

Section GetBooks.
Context `{NodePath} `{BookHost}.
Variable disk : FileSystem.

Lemma load_book_mode (st1 st2 : BookProvider) (contentPath : string) :
  _openAsUntitled st1 = _openAsUntitled st2 ->
  load_book disk st1 contentPath = load_book disk st2 contentPath.
Proof. intros Hmode. unfold load_book. now rewrite Hmode. Qed.


Lemma loaded_cons (st : BookProvider) (p : string) (paths : list string) :
  loaded disk st (p :: paths)
  = match load_book disk st p with
    | Returned b => b :: loaded disk st paths
    | Thrown _ => loaded disk st paths
    end.
Proof. unfold loaded. simpl. now destruct (load_book disk st p). Qed.

Lemma failures_cons (st : BookProvider) (p : string) (paths : list string) :
  failures disk st (p :: paths)
  = match load_book disk st p with
    | Returned _ => failures disk st paths
    | Thrown e => e :: failures disk st paths
    end.
Proof. unfold failures. simpl. now destruct (load_book disk st p). Qed.

Lemma getBooks_fold (st0 : BookProvider) (paths : list string)
    (books : list BookTreeItem) (st : BookProvider) :
  _openAsUntitled st = _openAsUntitled st0 ->
  exists st',
    fold_left (getBooks_step disk) paths (books, st)
    = (books ++ loaded disk st0 paths, st')
    /\ _openAsUntitled st' = _openAsUntitled st0
    /\ shownErrors st' = shownErrors st ++ failures disk st0 paths
    /\ _errorMessage st' = match last (failures disk st0 paths) with
                          | Some e => Some e
                          | None => _errorMessage st
                          end.
Proof.
  revert books st. induction paths as [|p paths IH]; intros books st Hmode.
  - exists st. cbn. now rewrite !app_nil_r.
  - cbn [fold_left getBooks_step]. rewrite loaded_cons, failures_cons.
    rewrite (load_book_mode st st0 p Hmode).
    destruct (load_book disk st0 p) as [b|e].
    + destruct (IH (books ++ [b]) st Hmode) as (st' & Hfold & Hm & Herr & Hlast).
      exists st'. rewrite Hfold, <- app_assoc. now repeat split.
    + destruct (IH books (report_error e st)) as (st' & Hfold & Hm & Herr & Hlast);
        [exact Hmode|].
      exists st'. rewrite Hfold. split; [reflexivity|]. split; [exact Hm|].
      split.
      * rewrite Herr. cbn [shownErrors report_error]. now rewrite <- app_assoc.
      * rewrite Hlast. cbn [_errorMessage report_error].
        destruct (failures disk st0 paths) as [|e' l]; [reflexivity|].
        rewrite last_cons_cons. destruct (last (e' :: l)) eqn:E; [reflexivity|].
        apply last_None in E. discriminate.
Qed.




End GetBooks.


Example getBooks_demo :
  map (fun b => (title (book b), root (book b)))
      (fst (getBooks (H:=posix_path) (H0:=demo_host) demo_disk demo_provider))
  = [(Some (YStr "Demo"), "/ws/demo"); (Some (YStr "Other"), "/ws/other")]
  /\ shownErrors (snd (getBooks (H:=posix_path) (H0:=demo_host) demo_disk demo_provider))
     = ["YAMLException: cannot parse - title: ["].
Proof. vm_compute. split; reflexivity. Qed.

(** ** [getTableOfContentFiles] *)

Section Discovery.
Context `{NodePath} `{BookHost}.

Lemma scan_roots_appends (disk : FileSystem) (maxDepth : option Z)
    (workspacePaths : list string) (st : BookProvider) :
  exists found,
    _tableOfContentPaths (snd (scan_roots disk maxDepth workspacePaths st))
    = _tableOfContentPaths st ++ found
    /\ forall all, scan_results disk maxDepth workspacePaths = Returned all ->
         found = all
         /\ fst (scan_roots disk maxDepth workspacePaths st) = Returned tt.
Proof.
  revert st. induction workspacePaths as [|w rest IH]; intros st.
  - exists []. cbn. rewrite app_nil_r. split; [reflexivity|].
    now intros all [= <-].
  - cbn [scan_roots scan_results].
    destruct (glob disk _ maxDepth) as [found1|e]; cbn [mbind Outcome_bind].
    + destruct (IH (set_tableOfContentPaths (_tableOfContentPaths st ++ found1) st))
        as (found2 & Hpaths & Hall).
      exists (found1 ++ found2). split.
      * rewrite Hpaths. cbn [_tableOfContentPaths set_tableOfContentPaths].
        now rewrite app_assoc.
      * intros all. destruct (scan_results disk maxDepth rest) as [more|e];
          cbn [mbind Outcome_bind]; [|discriminate].
        intros [= <-]. destruct (Hall more eq_refl) as [-> Hfst]. now split.
    + exists []. cbn. rewrite app_nil_r. split; [reflexivity | discriminate].
Qed.

Lemma getTableOfContentFiles_paths (configured : option Z) (disk : FileSystem)
    (workspacePaths : list string) (st : BookProvider) :
  _tableOfContentPaths (snd (getTableOfContentFiles configured disk workspacePaths st))
  = _tableOfContentPaths
      (snd (scan_roots disk (effective_depth configured) workspacePaths st)).
Proof.
  unfold getTableOfContentFiles.
  now destruct (scan_roots disk (effective_depth configured) workspacePaths st)
    as [[[]|e] st'].
Qed.

(** C5. The depth handed to the search is 5 for an unset or negative
    setting, no limit for the setting 0 and the setting itself when it
    is positive; a scan appends what it finds to the list of TOC paths,
    so that scanning the same roots twice leaves every path found there
    twice in the list. *)
Theorem getTableOfContentFiles_depth_and_append :
  effective_depth None = Some 5%Z
  /\ (forall d, (d < 0)%Z -> effective_depth (Some d) = Some 5%Z)
  /\ effective_depth (Some 0%Z) = None
  /\ (forall d, (0 < d)%Z -> effective_depth (Some d) = Some d)
  /\ (forall configured disk workspacePaths st,
        exists found,
          _tableOfContentPaths
            (snd (getTableOfContentFiles configured disk workspacePaths st))
          = _tableOfContentPaths st ++ found
          /\ forall all,
               scan_results disk (effective_depth configured) workspacePaths
               = Returned all ->
               found = all)
  /\ (forall configured disk workspacePaths st all,
        scan_results disk (effective_depth configured) workspacePaths = Returned all ->
        _tableOfContentPaths
          (snd (getTableOfContentFiles configured disk workspacePaths
                  (snd (getTableOfContentFiles configured disk workspacePaths st))))
        = _tableOfContentPaths st ++ all ++ all).
Proof.
  split; [reflexivity|]. split.
  { intros d Hd. unfold effective_depth.
    destruct (Z.ltb_spec d 0); [reflexivity | lia]. }
  split; [reflexivity|]. split.
  { intros d Hd. unfold effective_depth.
    destruct (Z.ltb_spec d 0); [lia|]. destruct (Z.eqb_spec d 0); [lia | reflexivity]. }
  split.
  - intros configured disk workspacePaths st.
    destruct (scan_roots_appends disk (effective_depth configured) workspacePaths st)
      as (found & Hpaths & Hall).
    exists found. rewrite getTableOfContentFiles_paths. split; [exact Hpaths|].
    intros all Hscan. now destruct (Hall all Hscan).
  - intros configured disk workspacePaths st all Hscan.
    rewrite !getTableOfContentFiles_paths.
    set (st1 := snd (getTableOfContentFiles configured disk workspacePaths st)).
    destruct (scan_roots_appends disk (effective_depth configured) workspacePaths st1)
      as (found2 & Hpaths2 & Hall2).
    destruct (Hall2 all Hscan) as [-> _]. rewrite Hpaths2. unfold st1.
    rewrite getTableOfContentFiles_paths.
    destruct (scan_roots_appends disk (effective_depth configured) workspacePaths st)
      as (found1 & Hpaths1 & Hall1).
    destruct (Hall1 all Hscan) as [-> _]. rewrite Hpaths1. now rewrite app_assoc.
Qed.
End Discovery.

Lemma getTableOfContentFiles_depth_and_append_witness :
  effective_depth (Some (-3)%Z) = Some 5%Z
  /\ effective_depth (Some 7%Z) = Some 7%Z
  /\ _tableOfContentPaths
       (snd (getTableOfContentFiles (H:=posix_path) (H0:=demo_host) (Some 0%Z)
               demo_disk ["/ws"]
               (snd (getTableOfContentFiles (H:=posix_path) (H0:=demo_host) (Some 0%Z)
                       demo_disk ["/ws"] (new_provider false)))))
     = [] ++ _tableOfContentPaths demo_provider ++ _tableOfContentPaths demo_provider.
Proof.
  destruct (getTableOfContentFiles_depth_and_append (H:=posix_path) (H0:=demo_host))
    as (_ & Hneg & _ & Hpos & _ & Hrescan).
  split; [apply Hneg; lia|]. split; [apply Hpos; lia|].
  apply (Hrescan (Some 0%Z) demo_disk ["/ws"] (new_provider false)).
  vm_compute. reflexivity.
Defined.

(** ** [getParent] *)

Section Parent.
Context `{NodePath} `{BookHost}.


(** Before any [openBook], asking for the parent of a markdown node
    throws. *)
Lemma getParent_without_book (st : BookProvider) (element : BookTreeItem) :
  _bookPath st = None ->
  endsWith (root (book element)) ".md" = true ->
  returned (getParent st element) = false.
Proof. unfold getParent, readme_of_book. now intros -> ->. Qed.
End Parent.



(** The basename is replaced where its text first occurs. *)
Example js_replace_last_component :
  js_replace "/ws/demo/content/intro.ipynb" "intro.ipynb" "readme.md"
  = "/ws/demo/content/readme.md".
Proof. reflexivity. Qed.

Example js_replace_first_occurrence :
  js_replace "/ws/x.ipynb/x.ipynb" "x.ipynb" "readme.md" = "/ws/readme.md/x.ipynb".
Proof. reflexivity. Qed.

(** ** [runThrottledAction] *)

Lemma set_throttle_same (st : BookProvider) :
  set_throttle (_throttleTimer st) (_resource st) st = st.
Proof. now destruct st. Qed.

Lemma same_resource_true (resource : string) (current : option string) :
  same_resource resource current = true <-> current = Some resource.
Proof.
  unfold same_resource. destruct current as [r|]; [|split; discriminate].
  rewrite String.eqb_eq. split; [now intros -> | now intros [= ->]].
Qed.

Lemma runThrottledAction_change (st : BookProvider) (w : Clock)
    (resource : string) (action : nat) :
  _resource st <> Some resource ->
  runThrottledAction resource action (st, w)
  = (set_throttle None (Some resource) st,
     invoke action (clearTimeout (_throttleTimer st) w)).
Proof.
  intros Hne. unfold runThrottledAction.
  destruct (same_resource resource (_resource st)) eqn:Hsame.
  { apply same_resource_true in Hsame. contradiction. }
  reflexivity.
Qed.

Lemma runThrottledAction_schedule (st : BookProvider) (w : Clock)
    (resource : string) (action : nat) :
  _resource st = Some resource -> _throttleTimer st = None ->
  runThrottledAction resource action (st, w)
  = (set_throttle (Some (nextHandle w)) (Some resource) st,
     snd (setTimeout action 300 w)).
Proof.
  intros Hres Htimer. unfold runThrottledAction.
  rewrite (proj2 (same_resource_true resource (_resource st)) Hres).
  cbn [negb]. cbn [_throttleTimer set_throttle]. rewrite Htimer. reflexivity.
Qed.

Lemma runThrottledAction_drop (st : BookProvider) (w : Clock)
    (resource : string) (action : nat) (h : nat) :
  _resource st = Some resource -> _throttleTimer st = Some h ->
  runThrottledAction resource action (st, w) = (st, w).
Proof.
  intros Hres Htimer. unfold runThrottledAction.
  rewrite (proj2 (same_resource_true resource (_resource st)) Hres).
  cbn [negb]. cbn [_throttleTimer set_throttle]. rewrite Htimer.
  rewrite <- Hres, <- Htimer. now rewrite set_throttle_same.
Qed.

(** C6, as the code has it. A request for a resource other than the last
    one runs its action at once and cancels the timer the provider holds.
    A request for the same resource is not merged with an earlier one:
    when the provider holds no timer handle the action is scheduled to
    run 300 units later, and while a scheduled action is pending the
    request is dropped. Two requests in a row for a new resource
    therefore run two actions: the first request's at once, the second
    request's 300 units after it was made. *)
Theorem runThrottledAction_policy (st : BookProvider) (w : Clock)
    (resource : string) (action : nat) :
  (_resource st <> Some resource ->
   runThrottledAction resource action (st, w)
   = (set_throttle None (Some resource) st,
      invoke action (clearTimeout (_throttleTimer st) w)))
  /\ (_resource st = Some resource -> _throttleTimer st = None ->
      runThrottledAction resource action (st, w)
      = (set_throttle (Some (nextHandle w)) (Some resource) st,
         snd (setTimeout action 300 w))
      /\ invoked (snd (runThrottledAction resource action (st, w))) = invoked w)
  /\ (forall h, _resource st = Some resource -> _throttleTimer st = Some h ->
      In h (map handle (timers w)) ->
      runThrottledAction resource action (st, w) = (st, w))
  /\ (forall t1 t2 horizon action2,
        _resource st <> Some resource -> timers w = [] ->
        (now w <= t1)%Z -> (t1 <= t2)%Z -> (t2 + 300 <= horizon)%Z ->
        invoked (run_requests
                   [{| at_time := t1; for_resource := resource; with_action := action |};
                    {| at_time := t2; for_resource := resource; with_action := action2 |}]
                   horizon (st, w))
        = invoked w ++ [(t1, action); ((t2 + 300)%Z, action2)]).
Proof.
  split; [|split; [|split]].
  - apply runThrottledAction_change.
  - intros Hres Htimer. rewrite runThrottledAction_schedule by assumption.
    split; reflexivity.
  - intros h Hres Htimer _. now apply runThrottledAction_drop with h.
  - intros t1 t2 horizon action2 Hne Hnone Hnow H12 Hhorizon.
    unfold run_requests. cbn [fold_left]. unfold serve at 2.
    cbn [fst snd at_time for_resource with_action].
    rewrite (runThrottledAction_change st (advance t1 w) resource action Hne).
    unfold serve. cbn [fst snd at_time for_resource with_action].
    rewrite runThrottledAction_schedule by reflexivity. cbn [snd].
    set (w1 := clearTimeout (_throttleTimer st) (advance t1 w)).
    assert (Hw1 : timers w1 = [] /\ invoked w1 = invoked w /\ now w1 = t1).
    { unfold w1. destruct (_throttleTimer st); cbn; rewrite Hnone; cbn;
        rewrite app_nil_r; repeat split; lia. }
    destruct Hw1 as (Htimers & Hinvoked & Hnow1).
    cbn [advance setTimeout invoke snd timers invoked now nextHandle].
    rewrite Htimers, Hinvoked, Hnow1.
    cbn [List.filter app map sort_by_due fold_left]. rewrite app_nil_r. cbn [due].
    replace (Z.max t1 t2) with t2 by lia.
    destruct (Z.leb_spec (t2 + 300) horizon); [|lia].
    cbn. now rewrite <- app_assoc.
Qed.

Lemma runThrottledAction_policy_witness :
  invoked (run_requests
             [{| at_time := 0; for_resource := "a.md"; with_action := 1 |};
              {| at_time := 100; for_resource := "a.md"; with_action := 2 |}]
             1000 (new_provider false, new_clock))
  = invoked new_clock ++ [(0%Z, 1); ((100 + 300)%Z, 2)].
Proof.
  destruct (runThrottledAction_policy (new_provider false) new_clock "a.md" 1)
    as (_ & _ & _ & Htwice).
  apply Htwice; [discriminate | reflexivity | cbn; lia | lia | lia].
Defined.

(** Two requests for the same path, 100 units apart, in a fresh provider:
    the preview command runs twice, and within the window it is the first
    request's action that has run. After an earlier request for the path,
    two requests in a row run one action, the one of the first of the
    two; the action of the second is never run. *)
Lemma runThrottledAction_twice_counterexample :
  let twice :=
    [{| at_time := 0; for_resource := "a.md"; with_action := 1 |};
     {| at_time := 100; for_resource := "a.md"; with_action := 2 |}] in
  let earlier := {| at_time := 0; for_resource := "a.md"; with_action := 0 |} in
  actions_run (run_requests twice 1000 (new_provider false, new_clock)) = [1; 2]
  /\ actions_run (run_requests twice 1000 (new_provider false, new_clock)) <> [2]
  /\ actions_run (run_requests twice 300 (new_provider false, new_clock)) = [1]
  /\ actions_run (run_requests (earlier :: twice) 1000 (new_provider false, new_clock))
     = [0; 1]
  /\ ~ In 2 (actions_run
               (run_requests (earlier :: twice) 1000 (new_provider false, new_clock))).
Proof.
  cbv zeta. split; [reflexivity|]. split; [discriminate|].
  split; [reflexivity|]. split; [reflexivity|].
  cbn. intros [H|[H|[]]]; discriminate H.
Qed.

(** ** [macroExpansion] *)

Lemma expand_replacement_plain (value before matched after : string) :
  no_dollar value = true ->
  expand_replacement value before matched after = value.
Proof.
  induction value as [|c rest IH]; [reflexivity|].
  cbn [no_dollar expand_replacement]. intros Hplain.
  apply andb_true_iff in Hplain. destruct Hplain as [Hc Hrest].
  apply negb_true_iff in Hc. rewrite Hc. now rewrite IH.
Qed.




(** C10 at a value with [$$] in it: no value contains the indicator, and
    what is put in place of the marked name is not the value. *)
Theorem macroExpansion_dollar_value :
  includes "a$$b" macroIndicator = false
  /\ macroExpansion "Name: @@PROJECT_NAME@@" [("PROJECT_NAME", "a$$b")]
     = Returned "Name: a$b"
  /\ substitute_all "Name: @@PROJECT_NAME@@" [("PROJECT_NAME", "a$$b")]
     = "Name: a$$b"
  /\ macroExpansion "Name: @@PROJECT_NAME@@" [("PROJECT_NAME", "a$&b")]
     = Returned "Name: a@@PROJECT_NAME@@b".
Proof. repeat split; reflexivity. Qed.

(** ** [createNewProject] *)

Section CreateProjectProperties.
Context `{NodePath} `{ProjectTexts}.

(** X16. A GUID that is a non-empty text and not a UUID: the method
    rejects before it awaits anything, so the disk is as everybody else
    left it. *)
Lemma createNewProject_invalid_guid (generated newProjName folder g : string) :
  g <> EmptyString -> isUUID g = false ->
  createNewProject generated newProjName folder (Some g)
  = Reject ("Specified GUID is invalid: '" +:+ g +:+ "'")
  /\ forall others disk,
       snd (run_async (createNewProject generated newProjName folder (Some g))
              others disk) = disk.
Proof.
  intros Hne Huuid. unfold createNewProject.
  destruct (String.eqb_spec g EmptyString); [contradiction|]. rewrite Huuid. cbn [negb andb].
  split; [reflexivity | now intros others disk].
Qed.

(** The empty GUID passes the test [projectGuid && ...] and is kept by
    [projectGuid ?? ...]. *)
Lemma createNewProject_empty_guid (generated newProjName folder : string) :
  createNewProject generated newProjName folder (Some EmptyString)
  = match macroExpansion newSqlProjectTemplate
            [("PROJECT_NAME", newProjName); ("PROJECT_GUID", EmptyString)] with
    | Thrown e => Reject e
    | Returned newProjFileContents =>
        let newProjFileName :=
          if endsWith (toLowerCase newProjName) sqlprojExtension
          then newProjName
          else newProjName +:+ sqlprojExtension in
        let newProjFilePath := path_join [folder; newProjFileName] in
        Access newProjFilePath (fun fileExists =>
          if fileExists then
            Reject (projectAlreadyExists newProjFileName folder)
          else
            Mkdir (path_dirname newProjFilePath)
              (WriteFile newProjFilePath newProjFileContents
                 (Resolve newProjFilePath)))
    end.
Proof. reflexivity. Qed.
End CreateProjectProperties.

(** C8 at the empty GUID, which is no UUID: the project file is written,
    with that GUID in it. *)
Theorem createNewProject_empty_guid_written :
  isUUID EmptyString = false
  /\ run_async (createNewProject (H:=posix_path) (H0:=demo_texts)
                  "6ba7b810-9dad-11d1-80b4-00c04fd430c8" "Sales" "/ws" (Some EmptyString))
       [] ∅
     = (Returned "/ws/Sales.sqlproj",
        <["/ws/Sales.sqlproj" :=
            File "<Name>Sales</Name><ProjectGuid>{}</ProjectGuid>"]>
          (<["/ws" := Directory]> ∅)).
Proof. split; reflexivity. Qed.

Example createNewProject_rejects_bad_guid :
  run_async (createNewProject (H:=posix_path) (H0:=demo_texts)
               "6ba7b810-9dad-11d1-80b4-00c04fd430c8" "Sales" "/ws" (Some "not-a-guid"))
    [] ∅
  = (Thrown "Specified GUID is invalid: 'not-a-guid'", ∅).
Proof. reflexivity. Qed.

Example isUUID_accepts :
  isUUID "6BA7B810-9dad-11d1-80b4-00c04fd430c8" = true
  /\ isUUID "6ba7b810-9dad-11d1-80b4-00c04fd430c" = false
  /\ isUUID "6ba7b810-9dad-11d1-80b4-00c04fd430c8 " = false.
Proof. repeat split; reflexivity. Qed.

(** The existence check and the write are two awaited operations: a file
    that somebody creates between them is overwritten. *)
Example createNewProject_race :
  let theirs : FileSystem -> FileSystem :=
    fun disk => <["/ws/Sales.sqlproj" := File "somebody else's project"]> disk in
  let '(result, disk) :=
    run_async (createNewProject (H:=posix_path) (H0:=demo_texts)
                 "6ba7b810-9dad-11d1-80b4-00c04fd430c8" "Sales" "/ws" None)
      [id; theirs] ∅ in
  result = Returned "/ws/Sales.sqlproj"
  /\ disk !! "/ws/Sales.sqlproj"
     = Some (File "<Name>Sales</Name><ProjectGuid>{6BA7B810-9DAD-11D1-80B4-00C04FD430C8}</ProjectGuid>").
Proof. vm_compute. split; reflexivity. Qed.

(** ** The Azure Arc tree *)

Section ArcProperties.
Context `{ArcHost}.

Lemma arc_call_loading (p : ArcProvider) (c : ArcCall) :
  _loading (arc_call p c) = _loading p.
Proof.
  destruct c as [| | | m password refreshTree providerReady | |]; try reflexivity.
  cbn [arc_call]. unfold addOrUpdateController.
  destruct (update_found m (_controllerNodes p)), providerReady, refreshTree;
    reflexivity.
Qed.

Lemma arc_calls_loading (calls : list ArcCall) (p : ArcProvider) :
  _loading (arc_calls calls p) = _loading p.
Proof.
  unfold arc_calls. revert p. induction calls as [|c calls IH]; intros p;
    [reflexivity|].
  cbn [fold_left]. now rewrite IH, arc_call_loading.
Qed.

Lemma controller_nodes_not_loading (nodes : list ControllerTreeNode) :
  ~ In LoadingTreeNode (map ControllerNode nodes).
Proof. induction nodes as [|n nodes IH]; [intros [] | intros [Heq|Hin]]; [discriminate | auto]. Qed.

(** C9. While the provider is loading, [getChildren] answers with the
    loading node alone, whatever it is asked about. However the read
    of the saved controllers ends, [loadSavedControllers] leaves the
    provider not loading and fires a change of the whole tree; no call
    made afterwards brings the loading state back, so [getChildren]
    then answers with the children of the element or, for the root,
    with the controller nodes, none of which is the loading node. *)
Theorem arc_loading_gate :
  (forall p element,
      _loading p = true -> getChildren p element = Returned [LoadingTreeNode])
  /\ (forall stored p,
        _loading (snd (loadSavedControllers stored p)) = false
        /\ treeChanges (snd (loadSavedControllers stored p)) = treeChanges p ++ [None])
  /\ (forall stored p calls element,
        let later := arc_calls calls (snd (loadSavedControllers stored p)) in
        _loading later = false
        /\ getChildren later element
           = match element with
             | Some e => node_getChildren e
             | None => Returned (map ControllerNode (_controllerNodes later))
             end
        /\ (element = None ->
            forall nodes, getChildren later element = Returned nodes ->
                          ~ In LoadingTreeNode nodes)).
Proof.
  split; [|split].
  - intros p element Hloading. unfold getChildren. now rewrite Hloading.
  - intros stored p. unfold loadSavedControllers. now destruct stored.
  - intros stored p calls element later.
    assert (Hlater : _loading later = false).
    { unfold later. rewrite arc_calls_loading. unfold loadSavedControllers.
      now destruct stored. }
    split; [exact Hlater|]. unfold getChildren. rewrite Hlater.
    split; [reflexivity|]. intros -> nodes [= <-].
    apply controller_nodes_not_loading.
Qed.
End ArcProperties.

Lemma arc_loading_gate_witness :
  getChildren (H:=demo_arc_host) (new_arc_provider []) (Some (ResourceNode "x"))
  = Returned [LoadingTreeNode]
  /\ forall nodes,
       getChildren (H:=demo_arc_host)
         (arc_calls (H:=demo_arc_host) [CallRefreshNode None]
            (snd (loadSavedControllers (Thrown "globalState is not available")
                    (new_arc_provider []))))
         None = Returned nodes ->
       ~ In LoadingTreeNode nodes.
Proof.
  destruct (arc_loading_gate (H:=demo_arc_host)) as (Hgate & _ & Hlater).
  split.
  - apply Hgate. reflexivity.
  - destruct (Hlater (Thrown "globalState is not available") (new_arc_provider [])
                [CallRefreshNode None] None) as (_ & _ & Hnone).
    apply Hnone. reflexivity.
Defined.

Example arc_constructor_then_root :
  let p := snd (loadSavedControllers
                  (Returned [{| url := "https://arc"; username := "admin";
                                rememberPassword := true |}])
                  (new_arc_provider [])) in
  getChildren (H:=demo_arc_host) p None
  = Returned [ControllerNode
                {| nodeId := 0;
                   model := {| info := {| url := "https://arc"; username := "admin";
                                          rememberPassword := true |} |} |}]
  /\ treeChanges p = [None].
Proof. split; reflexivity. Qed.

(** ** [String.replace] on a path that ends with the pattern *)

Lemma substring_all_append (a b : string) :
  substring 0 (String.length a) (a +:+ b) = a.
Proof.
  induction a as [|c a IH]; [now destruct b|].
  change (String c (substring 0 (String.length a) (a +:+ b)) = String c a).
  now rewrite IH.
Qed.

Lemma substring_nothing (n : nat) (s : string) : substring n 0 s = EmptyString.
Proof. revert n. induction s as [|c s IH]; intros [|n]; cbn; auto. Qed.

Lemma length_append (a b : string) :
  String.length (a +:+ b) = (String.length a + String.length b)%nat.
Proof.
  induction a as [|c a IH]; [reflexivity|].
  change (S (String.length (a +:+ b)) = S (String.length a + String.length b)).
  now rewrite IH.
Qed.

(** When the basename's text first occurs where the last component
    starts, the replacement gives the sibling in the same directory. *)
Lemma append_assoc_empty (a b : string) : a +:+ b +:+ EmptyString = a +:+ b.
Proof.
  induction a as [|c a IH].
  - change (b +:+ EmptyString = b). induction b as [|c b IHb]; [reflexivity|].
    change (String c (b +:+ EmptyString) = String c b). now rewrite IHb.
  - change (String c (a +:+ b +:+ EmptyString) = String c (a +:+ b)). now rewrite IH.
Qed.

Lemma js_replace_suffix (dir base replacement : string) :
  index 0 base (dir +:+ base) = Some (String.length dir) ->
  no_dollar replacement = true ->
  js_replace (dir +:+ base) base replacement = dir +:+ replacement.
Proof.
  intros Hfirst Hplain. unfold js_replace. rewrite Hfirst.
  rewrite substring_all_append, length_append, Nat.sub_diag, substring_nothing.
  rewrite expand_replacement_plain by exact Hplain.
  apply append_assoc_empty.
Qed.

(* ================================================================= *)
(** * Further properties of the code *)

(** ** [flattenArray]: failures and flat outlines *)




Lemma flatten_step_flat_leaf (title : option Yaml) (acc : list Yaml) (v : Yaml) :
  flat_leaf v = true -> flatten_step title acc v = Returned (acc ++ [v]).
Proof.
  unfold flatten_step. destruct v as [| | | | |fields]; try discriminate;
    try reflexivity.
  cbn [flat_leaf member mbind Outcome_bind]. intros Hleaf.
  apply negb_true_iff in Hleaf. now rewrite Hleaf.
Qed.

(** X2. An outline without nesting comes back unchanged: entries that are
    neither [null] nor lists, and have no list under [sections], are
    appended as they are. In particular a [sections] that is present but
    is not a list is no error; the entry is kept as a leaf. *)
Theorem flattenArray_flat_identity (items : list Yaml) (title : option Yaml) :
  forallb flat_leaf items = true ->
  flattenArray (YSeq items) title = Returned items.
Proof.
  intros Hflat. rewrite flattenArray_seq.
  assert (Hreduce : forall acc,
             reduce (flatten_step title) items acc = Returned (acc ++ items)).
  { induction items as [|v items IH]; intros acc.
    - cbn. now rewrite app_nil_r.
    - cbn [forallb] in Hflat. apply andb_true_iff in Hflat. destruct Hflat as [Hv Hrest].
      cbn [reduce]. rewrite (flatten_step_flat_leaf title acc v Hv).
      cbn [mbind Outcome_bind]. rewrite (IH Hrest). now rewrite <- app_assoc. }
  now rewrite Hreduce.
Qed.

Lemma flattenArray_flat_identity_witness :
  flattenArray (YSeq [setup_section; YMap [("title", YStr "Odd"); ("sections", YStr "x")]])
    None
  = Returned [setup_section; YMap [("title", YStr "Odd"); ("sections", YStr "x")]].
Proof.
  apply flattenArray_flat_identity. reflexivity.
Defined.

(** ** [getSections]: external links, skipped and broken entries, the index *)

Section GetSectionsMore.
Context `{NodePath} `{BookHost}.
Variables (disk : FileSystem) (toc : list Yaml) (r : string).

(** What a turn of the loop that does not throw has done. *)
Lemma section_step_cases (st st' : BookProvider) (s : Yaml)
    (pushed : option BookTreeItem) :
  section_step disk toc r st s = Returned (pushed, st') ->
  (pushed = None /\ st' = st /\ url_truthy s = false)
  \/ (pushed = None /\ exists e, st' = report_error e st)
  \/ (exists n, pushed = Some n /\ st' = st /\ item_type n <> Notebook
                /\ item_of_book toc r (_openAsUntitled st) n)
  \/ (exists n u, pushed = Some n /\ item_type n = Notebook
                  /\ item_of_book toc r (_openAsUntitled st) n
                  /\ leaf_url s = Some u
                  /\ st' = set_allNotebooks
                             (index_with (_openAsUntitled st) (notebook_path r u) n
                                (_allNotebooks st)) st).
Proof.
  unfold section_step, item, url_truthy, leaf_url, notebook_path.
  destruct s as [| | | | |fields]; cbn [member mbind Outcome_bind truthy];
    try discriminate; try (intros [= <- <-]; now left).
  destruct (truthy (assoc "url" fields)) eqn:Hurl; [|intros [= <- <-]; now left].
  destruct (truthy (assoc "external" fields)).
  { intros [= <- <-]. right; right; left. eexists. split; [reflexivity|].
    split; [reflexivity|]. split; [discriminate|]. now repeat split. }
  destruct (assoc "url" fields) as [[| | |u| |]|]; cbn [url_concat mbind Outcome_bind];
    try discriminate.
  cbn [truthy] in Hurl. apply negb_true_iff in Hurl. rewrite Hurl.
  destruct (existsSync disk (path_join [r; "content"; u +:+ ".ipynb"])).
  { intros [= <- <-]. right; right; right. eexists _, u. split; [reflexivity|].
    split; [reflexivity|]. split; [now repeat split|]. split; reflexivity. }
  destruct (existsSync disk (path_join [r; "content"; u +:+ ".md"])).
  { intros [= <- <-]. right; right; left. eexists. split; [reflexivity|].
    split; [reflexivity|]. split; [discriminate|]. now repeat split. }
  intros [= <- <-]. right; left. split; [reflexivity|]. now eexists.
Qed.

Lemma index_with_keeps (mode : bool) (p : string) (n : BookTreeItem)
    (index : gmap string BookTreeItem) (key : string) :
  is_Some (index !! key) -> is_Some (index_with mode p n index !! key).
Proof.
  intros Hsome. unfold index_with. destruct mode.
  - destruct (decide (path_basename p = key)) as [->|Hb];
      [rewrite lookup_insert_eq; eauto|].
    rewrite lookup_insert_ne by exact Hb.
    destruct (decide (p = key)) as [->|Hp]; [rewrite lookup_insert_eq; eauto|].
    now rewrite lookup_insert_ne.
  - destruct (decide (p = key)) as [->|Hp]; [rewrite lookup_insert_eq; eauto|].
    now rewrite lookup_insert_ne.
Qed.

Lemma index_with_written (mode : bool) (p : string) (n : BookTreeItem)
    (index : gmap string BookTreeItem) (acc : list BookTreeItem) (key : string) :
  item_type n = Notebook ->
  key_written index acc key ->
  key_written (index_with mode p n index) (acc ++ [n]) key.
Proof.
  intros Hty (nb & Hkey & Hin & Hnb). unfold key_written, index_with.
  assert (Hn : In n (acc ++ [n])) by (apply in_or_app; right; now left).
  assert (Hold : In nb (acc ++ [n])) by (apply in_or_app; now left).
  destruct mode.
  - destruct (decide (path_basename p = key)) as [->|Hb].
    { exists n. now rewrite lookup_insert_eq. }
    rewrite lookup_insert_ne by exact Hb.
    destruct (decide (p = key)) as [->|Hp].
    { exists n. now rewrite lookup_insert_eq. }
    exists nb. now rewrite lookup_insert_ne.
  - destruct (decide (p = key)) as [->|Hp].
    { exists n. now rewrite lookup_insert_eq. }
    exists nb. now rewrite lookup_insert_ne.
Qed.

Lemma index_with_new (mode : bool) (p : string) (n : BookTreeItem)
    (index : gmap string BookTreeItem) (acc : list BookTreeItem) :
  item_type n = Notebook ->
  key_written (index_with mode p n index) (acc ++ [n]) p
  /\ (mode = true ->
      key_written (index_with mode p n index) (acc ++ [n]) (path_basename p)).
Proof.
  intros Hty. unfold key_written, index_with.
  assert (Hn : In n (acc ++ [n])) by (apply in_or_app; right; now left).
  split.
  - exists n. destruct mode.
    + destruct (decide (path_basename p = p)) as [->|Hb];
        [now rewrite lookup_insert_eq|].
      rewrite lookup_insert_ne by exact Hb. now rewrite lookup_insert_eq.
    + now rewrite lookup_insert_eq.
  - intros ->. exists n. now rewrite lookup_insert_eq.
Qed.

Lemma key_written_more (index : gmap string BookTreeItem)
    (acc more : list BookTreeItem) (key : string) :
  key_written index acc key -> key_written index (acc ++ more) key.
Proof.
  intros (nb & Hkey & Hin & Hty). exists nb. split; [exact Hkey|].
  split; [apply in_or_app; now left | exact Hty].
Qed.

(** One turn keeps the keys of the index, and the keys that hold pushed
    notebooks keep holding pushed notebooks. *)
Lemma section_step_index (st st' : BookProvider) (s : Yaml)
    (pushed : option BookTreeItem) (acc : list BookTreeItem) :
  section_step disk toc r st s = Returned (pushed, st') ->
  (forall key, is_Some (_allNotebooks st !! key) -> is_Some (_allNotebooks st' !! key))
  /\ (forall key, key_written (_allNotebooks st) acc key ->
                  key_written (_allNotebooks st') (acc ++ pushed_list pushed) key).
Proof.
  intros Hstep.
  destruct (section_step_cases _ _ _ _ Hstep)
    as [(-> & -> & _) | [(-> & e & ->) | [(n & -> & -> & _) | (n & u & -> & Hty & _ & _ & ->)]]];
    cbn [pushed_list _allNotebooks report_error set_allNotebooks].
  - rewrite app_nil_r. now split.
  - rewrite app_nil_r. now split.
  - split; [now intros key|]. intros key. apply key_written_more.
  - split.
    + intros key. apply index_with_keeps.
    + intros key. now apply index_with_written.
Qed.

Lemma getSections_loop_index (sections : list Yaml) (acc : list BookTreeItem)
    (st st' : BookProvider) (out : list BookTreeItem) :
  getSections_loop disk toc sections r acc st = (Returned out, st') ->
  (forall key, is_Some (_allNotebooks st !! key) -> is_Some (_allNotebooks st' !! key))
  /\ (forall key, key_written (_allNotebooks st) acc key ->
                  key_written (_allNotebooks st') out key)
  /\ (forall s u,
        In s sections -> leaf_url s = Some u -> external_set s = false ->
        existsSync disk (notebook_path r u) = true ->
        key_written (_allNotebooks st') out (notebook_path r u)
        /\ (_openAsUntitled st = true ->
            key_written (_allNotebooks st') out (path_basename (notebook_path r u)))).
Proof.
  revert acc st out. induction sections as [|s0 rest IH]; intros acc st out.
  - cbn. intros [= <- <-]. split; [auto|]. split; [auto|]. intros s u [].
  - rewrite getSections_loop_cons.
    destruct (section_step disk toc r st s0) as [[pushed st1]|e] eqn:Hstep;
      [|discriminate].
    intros Hrun. destruct (IH _ _ _ Hrun) as (Hkeys & Hwritten & Hnew).
    destruct (section_step_index _ _ _ _ acc Hstep) as [Hkeys1 Hwritten1].
    destruct (section_step_mode _ _ _ _ _ _ _ Hstep) as [Hmode _].
    split; [auto|]. split; [auto|].
    intros s u [<-|Hin] Hurl Hext Hnb.
    + destruct (section_step_notebook disk toc r st s0 u Hurl Hext Hnb)
        as (nb & st2 & Hstep' & Hty & _).
      rewrite Hstep in Hstep'. injection Hstep' as -> ->.
      destruct (section_step_cases _ _ _ _ Hstep)
        as [(Hp & _) | [(Hp & _) | [(n & Hp & _ & Hnot & _) | (n & u' & Hp & Hty' & _ & Hurl' & Hst)]]];
        try discriminate.
      { injection Hp as <-. contradiction. }
      injection Hp as <-. rewrite Hurl in Hurl'. injection Hurl' as <-.
      destruct (index_with_new (_openAsUntitled st) (notebook_path r u) nb
                  (_allNotebooks st) acc Hty) as [Hpath Hbase].
      cbn [pushed_list] in Hwritten. subst st2. cbn [_allNotebooks set_allNotebooks] in Hwritten.
      split; [now apply Hwritten|]. intros Huntitled. apply Hwritten. now apply Hbase.
    + destruct (Hnew s u Hin Hurl Hext Hnb) as [Hpath Hbase].
      split; [exact Hpath|]. intros Huntitled. apply Hbase. congruence.
Qed.

(** X3. [getSections] only adds to the index of notebooks: a key that was
    there stays, and after the call every section that resolves to a
    notebook file can be looked up under that file's path (under its
    basename too, when books are opened as untitled), where it finds one
    of the Notebook items the call returned. *)
Theorem getSections_indexes_notebooks (st st' : BookProvider)
    (sections : list Yaml) (nodes : list BookTreeItem) :
  getSections disk st toc sections r = (Returned nodes, st') ->
  (forall key, is_Some (_allNotebooks st !! key) -> is_Some (_allNotebooks st' !! key))
  /\ (forall s u,
        In s sections -> leaf_url s = Some u -> external_set s = false ->
        existsSync disk (notebook_path r u) = true ->
        key_written (_allNotebooks st') nodes (notebook_path r u)
        /\ (_openAsUntitled st = true ->
            key_written (_allNotebooks st') nodes
              (path_basename (notebook_path r u)))).
Proof.
  intros Hrun. destruct (getSections_loop_index _ _ _ _ _ Hrun) as (Hkeys & _ & Hnew).
  now split.
Qed.
End GetSectionsMore.

Lemma getSections_indexes_notebooks_witness :
  key_written (_allNotebooks (demo_after true [ghost_section; intro_section]))
    (demo_nodes true [ghost_section; intro_section]) "/ws/demo/content/intro.ipynb"
  /\ key_written (_allNotebooks (demo_after true [ghost_section; intro_section]))
       (demo_nodes true [ghost_section; intro_section]) "intro.ipynb".
Proof.
  destruct (getSections_indexes_notebooks (H:=posix_path) (H0:=demo_host)
              demo_disk [] "/ws/demo" (new_provider true)
              (demo_after true [ghost_section; intro_section])
              [ghost_section; intro_section]
              (demo_nodes true [ghost_section; intro_section])) as [_ Hnew];
    [vm_compute; reflexivity|].
  destruct (Hnew intro_section "intro") as [Hpath Hbase];
    [right; now left | reflexivity | reflexivity | vm_compute; reflexivity |].
  split; [exact Hpath | apply Hbase; reflexivity].
Defined.

Section GetSectionsEntries.
Context `{NodePath} `{BookHost}.
Variables (disk : FileSystem) (toc : list Yaml) (r : string).

Lemma section_step_external (st : BookProvider) (s : Yaml) :
  url_truthy s = true -> external_set s = true ->
  exists link,
    section_step disk toc r st s = Returned (Some link, st)
    /\ item_type link = ExternalLink /\ page (book link) = s
    /\ forall disk', section_step disk' toc r st s = Returned (Some link, st).
Proof.
  unfold url_truthy, external_set, section_step, item.
  destruct s as [| | | | |fields]; cbn [member mbind Outcome_bind truthy];
    try discriminate.
  intros -> ->. eexists. split; [reflexivity|]. now repeat split.
Qed.

Lemma section_step_skips (st : BookProvider) (s : Yaml) (u : option Yaml) :
  member s "url" = Returned u -> truthy u = false ->
  section_step disk toc r st s = Returned (None, st).
Proof.
  intros Hurl Hfalsy. unfold section_step. rewrite Hurl. cbn [mbind Outcome_bind].
  now rewrite Hfalsy.
Qed.

Lemma section_step_throws (st : BookProvider) (s : Yaml) :
  s = YNull \/ (url_not_text s = true /\ external_set s = false) ->
  returned (section_step disk toc r st s) = false.
Proof.
  intros [->|[Hurl Hext]]; [reflexivity|].
  unfold url_not_text, external_set, section_step in *.
  destruct s as [| | | | |fields]; cbn [member mbind Outcome_bind truthy] in *;
    try discriminate.
  destruct (assoc "url" fields) as [[| | |u| |]|]; try discriminate;
    rewrite Hurl, Hext; reflexivity.
Qed.

(** X4. A section with a [url] and [external] set becomes an ExternalLink
    item whatever files exist: the disk is not looked at, and neither the
    index nor the recorded error changes. *)
Theorem getSections_external_link (st : BookProvider) (pre post : list Yaml)
    (s : Yaml) (A B : list BookTreeItem) :
  url_truthy s = true -> external_set s = true ->
  fst (getSections disk st toc pre r) = Returned A ->
  fst (getSections disk st toc post r) = Returned B ->
  exists link,
    fst (getSections disk st toc (pre ++ s :: post) r) = Returned (A ++ link :: B)
    /\ item_type link = ExternalLink /\ page (book link) = s
    /\ (forall disk', getSections disk' st toc [s] r = (Returned [link], st)).
Proof.
  intros Hurl Hext Hpre Hpost.
  destruct (getSections_around disk toc r st pre post s A B Hpre Hpost)
    as (st1 & _ & Hmode & Hrun).
  destruct (section_step_external st1 s Hurl Hext) as (link & Hstep & Hty & Hpage & _).
  destruct (Hrun _ _ Hstep) as (st3 & Hall & _).
  exists link. rewrite Hall. split; [reflexivity|]. split; [exact Hty|].
  split; [exact Hpage|]. intros disk'.
  destruct (section_step_external st s Hurl Hext) as (link' & Hstep' & _ & _ & Hany).
  destruct (section_step_mode disk toc r _ _ _ _ Hstep) as [_ Hother].
  destruct (Hother st) as [st2 Hstep2]; [now symmetry|].
  assert (link' = link) by congruence. subst link'.
  unfold getSections. cbn [getSections_loop]. now rewrite (Hany disk').
Qed.
End GetSectionsEntries.

Section GetSectionsShape.
Context `{NodePath} `{BookHost}.
Variables (disk : FileSystem) (toc : list Yaml) (r : string).

Lemma section_step_fields (st st' : BookProvider) (s : Yaml)
    (pushed : option BookTreeItem) :
  section_step disk toc r st s = Returned (pushed, st') ->
  _tableOfContentPaths st' = _tableOfContentPaths st
  /\ _bookPath st' = _bookPath st
  /\ Forall (item_of_book toc r (_openAsUntitled st)) (pushed_list pushed).
Proof.
  intros Hstep.
  destruct (section_step_cases _ _ _ _ _ _ _ Hstep)
    as [(-> & -> & _) | [(-> & e & ->) | [(n & -> & -> & _ & Hn) | (n & u & -> & _ & Hn & _ & ->)]]];
    cbn [pushed_list]; repeat split; auto.
Qed.

Lemma getSections_loop_shape (sections : list Yaml) (acc : list BookTreeItem)
    (st st' : BookProvider) (out : list BookTreeItem) :
  getSections_loop disk toc sections r acc st = (Returned out, st') ->
  exists new,
    out = acc ++ new
    /\ Forall (item_of_book toc r (_openAsUntitled st)) new
    /\ sublist (map (fun n => page (book n)) new) sections
    /\ _tableOfContentPaths st' = _tableOfContentPaths st
    /\ _bookPath st' = _bookPath st.
Proof.
  revert acc st out. induction sections as [|s rest IH]; intros acc st out.
  - cbn. intros [= <- <-]. exists []. rewrite app_nil_r. repeat split; constructor.
  - rewrite getSections_loop_cons.
    destruct (section_step disk toc r st s) as [[pushed st1]|e] eqn:Hstep;
      [|discriminate].
    intros Hrun. destruct (IH _ _ _ Hrun) as (new & -> & Hnew & Hsub & Hpaths & Hbook).
    destruct (section_step_fields _ _ _ _ Hstep) as (Hpaths1 & Hbook1 & Hpushed).
    destruct (section_step_mode _ _ _ _ _ _ _ Hstep) as [Hmode _].
    rewrite Hmode in Hnew.
    exists (pushed_list pushed ++ new). rewrite <- app_assoc.
    split; [reflexivity|]. split; [now apply Forall_app|].
    split; [|split; congruence].
    destruct pushed as [n|]; cbn [pushed_list app map].
    + destruct (section_step_pushed _ _ _ _ _ _ _ Hstep) as [-> _].
      now apply sublist_skip.
    + now apply sublist_cons.
Qed.

(** X5. Every item that [getSections] returns belongs to the book it was
    asked about (its root, its outline, the provider's untitled mode) and
    is collapsed; the items come in the order of the sections, at most
    one for each; the list of TOC paths and the book path are left
    alone. *)
Theorem getSections_items_of_book (st st' : BookProvider)
    (sections : list Yaml) (nodes : list BookTreeItem) :
  getSections disk st toc sections r = (Returned nodes, st') ->
  Forall (item_of_book toc r (_openAsUntitled st)) nodes
  /\ sublist (map (fun n => page (book n)) nodes) sections
  /\ length nodes <= length sections
  /\ _tableOfContentPaths st' = _tableOfContentPaths st
  /\ _bookPath st' = _bookPath st.
Proof.
  intros Hrun. destruct (getSections_loop_shape _ _ _ _ _ Hrun)
    as (new & -> & Hnew & Hsub & Hpaths & Hbook).
  cbn [app]. repeat split; auto.
  apply sublist_length in Hsub. now rewrite length_map in Hsub.
Qed.

(** X6. An entry that is [null], or whose [url] is truthy but not a
    string while [external] is unset (a page named by a number, say),
    makes [getSections] throw: the items made for the sections before it
    are not returned, while what those sections stored in the provider
    stays stored. *)
Theorem getSections_broken_entry (st st1 : BookProvider) (pre post : list Yaml)
    (s : Yaml) (A : list BookTreeItem) :
  s = YNull \/ (url_not_text s = true /\ external_set s = false) ->
  getSections disk st toc pre r = (Returned A, st1) ->
  exists e, getSections disk st toc (pre ++ s :: post) r = (Thrown e, st1).
Proof.
  intros Hbroken Hpre. rewrite getSections_app, Hpre, getSections_loop_cons.
  pose proof (section_step_throws disk toc r st1 s Hbroken) as Hthrows.
  destruct (section_step disk toc r st1 s) as [?|e]; [discriminate|]. now exists e.
Qed.

(** X7. An entry without a truthy [url] (no [url], an empty one, or a
    scalar in place of a mapping) is passed over in silence: the call
    gives what it gives without that entry. *)
Theorem getSections_skips_entries_without_url (st : BookProvider)
    (pre post : list Yaml) (s : Yaml) (u : option Yaml) :
  member s "url" = Returned u -> truthy u = false ->
  getSections disk st toc (pre ++ s :: post) r
  = getSections disk st toc (pre ++ post) r.
Proof.
  intros Hurl Hfalsy. rewrite !getSections_app.
  destruct (getSections disk st toc pre r) as [[A|e] st1]; [|reflexivity].
  rewrite getSections_loop_cons, (section_step_skips disk toc r st1 s u Hurl Hfalsy).
  cbn [pushed_list]. now rewrite app_nil_r.
Qed.
End GetSectionsShape.

Lemma getSections_external_link_witness :
  exists link,
    fst (getSections (H:=posix_path) (H0:=demo_host) demo_disk (new_provider false) []
           ([intro_section] ++ link_section :: [setup_section]) "/ws/demo")
    = Returned (demo_items [intro_section] ++ link :: demo_items [setup_section])
    /\ item_type link = ExternalLink /\ page (book link) = link_section
    /\ (forall disk', getSections (H:=posix_path) (H0:=demo_host) disk'
                        (new_provider false) [] [link_section] "/ws/demo"
                      = (Returned [link], new_provider false)).
Proof.
  apply (getSections_external_link (H:=posix_path) (H0:=demo_host)
           demo_disk [] "/ws/demo" (new_provider false)
           [intro_section] [setup_section] link_section
           (demo_items [intro_section]) (demo_items [setup_section]));
    vm_compute; reflexivity.
Defined.

Lemma getSections_items_of_book_witness :
  Forall (item_of_book [] "/ws/demo" false) (demo_items demo_toc)
  /\ length (demo_items demo_toc) <= length demo_toc.
Proof.
  destruct (getSections_items_of_book (H:=posix_path) (H0:=demo_host)
              demo_disk [] "/ws/demo" (new_provider false)
              (demo_after false demo_toc) demo_toc (demo_items demo_toc))
    as (Hitems & _ & Hlen & _); [vm_compute; reflexivity|].
  split; [exact Hitems | exact Hlen].
Defined.

Lemma getSections_broken_entry_witness :
  exists e,
    getSections (H:=posix_path) (H0:=demo_host) demo_disk (new_provider false) []
      ([intro_section] ++ numeric_section :: [setup_section]) "/ws/demo"
    = (Thrown e, demo_after false [intro_section]).
Proof.
  apply (getSections_broken_entry (H:=posix_path) (H0:=demo_host)
           demo_disk [] "/ws/demo" (new_provider false) (demo_after false [intro_section])
           [intro_section] [setup_section] numeric_section (demo_items [intro_section])).
  - right. split; reflexivity.
  - vm_compute. reflexivity.
Defined.

Lemma getSections_skips_entries_without_url_witness :
  getSections (H:=posix_path) (H0:=demo_host) demo_disk (new_provider false) []
    ([intro_section] ++ heading_section :: [setup_section]) "/ws/demo"
  = getSections (H:=posix_path) (H0:=demo_host) demo_disk (new_provider false) []
      ([intro_section] ++ [setup_section]) "/ws/demo".
Proof.
  apply (getSections_skips_entries_without_url (H:=posix_path) (H0:=demo_host)
           demo_disk [] "/ws/demo" (new_provider false)
           [intro_section] [setup_section] heading_section None); reflexivity.
Defined.

(** ** [getBooks] and [getTableOfContentFiles]: every path accounted for *)

Section GetBooksMore.
Context `{NodePath} `{BookHost}.
Variable disk : FileSystem.

Lemma load_book_item (st : BookProvider) (contentPath : string) (b : BookTreeItem) :
  load_book disk st contentPath = Returned b ->
  item_type b = Book
  /\ root (book b) = path_dirname (path_dirname contentPath)
  /\ untitled (book b) = _openAsUntitled st
  /\ exists text toc,
       readFileSync disk contentPath = Returned text
       /\ safeLoad text = Returned toc
       /\ page (book b) = toc
       /\ flattenArray toc (title (book b)) = Returned (tableOfContents (book b)).
Proof.
  unfold load_book.
  destruct (readFileSync disk (path_join _)) as [configText|]; cbn [mbind Outcome_bind];
    [|discriminate].
  destruct (safeLoad configText) as [config|]; cbn [mbind Outcome_bind]; [|discriminate].
  destruct (readFileSync disk contentPath) as [text|]; cbn [mbind Outcome_bind];
    [|discriminate].
  destruct (safeLoad text) as [toc|] eqn:Htoc; cbn [mbind Outcome_bind]; [|discriminate].
  destruct (member config "title") as [configTitle|]; cbn [mbind Outcome_bind];
    [|discriminate].
  destruct (flattenArray toc configTitle) as [flat|] eqn:Hflat; cbn [mbind Outcome_bind];
    [|discriminate].
  intros [= <-]. repeat split. now exists text, toc.
Qed.

Lemma getBooks_fold_fields (paths : list string) (books : list BookTreeItem)
    (st : BookProvider) :
  _tableOfContentPaths (snd (fold_left (getBooks_step disk) paths (books, st)))
  = _tableOfContentPaths st
  /\ _allNotebooks (snd (fold_left (getBooks_step disk) paths (books, st)))
     = _allNotebooks st
  /\ _bookPath (snd (fold_left (getBooks_step disk) paths (books, st))) = _bookPath st.
Proof.
  revert books st. induction paths as [|p paths IH]; intros books st; [now cbn|].
  cbn [fold_left getBooks_step]. destruct (load_book disk st p) as [b|e]; [apply IH|].
  destruct (IH books (report_error e st)) as (H1 & H2 & H3). now rewrite H1, H2, H3.
Qed.

Lemma loaded_failures_length (st : BookProvider) (paths : list string) :
  length (loaded disk st paths) + length (failures disk st paths) = length paths.
Proof.
  induction paths as [|p paths IH]; [reflexivity|].
  rewrite loaded_cons, failures_cons. destruct (load_book disk st p); cbn [length]; lia.
Qed.

(** X8. [getBooks] accounts for every TOC path once: each path gives
    either a Book item, rooted two directories above the path and
    carrying the parsed document and its flattening, or one error shown;
    items and errors keep the order of the paths, and the call changes
    neither the list of paths nor the index. *)
Theorem getBooks_accounts_for_every_path (st : BookProvider) :
  length (fst (getBooks disk st))
  + (length (shownErrors (snd (getBooks disk st))) - length (shownErrors st))
  = length (_tableOfContentPaths st)
  /\ fst (getBooks disk st) = loaded disk st (_tableOfContentPaths st)
  /\ shownErrors (snd (getBooks disk st))
     = shownErrors st ++ failures disk st (_tableOfContentPaths st)
  /\ _tableOfContentPaths (snd (getBooks disk st)) = _tableOfContentPaths st
  /\ _allNotebooks (snd (getBooks disk st)) = _allNotebooks st
  /\ Forall (fun b =>
               item_type b = Book
               /\ flattenArray (page (book b)) (title (book b))
                  = Returned (tableOfContents (book b))
               /\ exists p, In p (_tableOfContentPaths st)
                            /\ root (book b) = path_dirname (path_dirname p))
            (fst (getBooks disk st)).
Proof.
  unfold getBooks.
  destruct (getBooks_fold disk st (_tableOfContentPaths st) [] st eq_refl)
    as (st' & Hfold & _ & Herr & _).
  destruct (getBooks_fold_fields (_tableOfContentPaths st) [] st) as (Hpaths & Hindex & _).
  rewrite Hfold in *. cbn [fst snd app] in *.
  split.
  { rewrite Herr, length_app. pose proof (loaded_failures_length st (_tableOfContentPaths st)).
    lia. }
  split; [reflexivity|]. split; [exact Herr|]. split; [exact Hpaths|].
  split; [exact Hindex|].
  apply List.Forall_forall. intros b Hb.
  assert (Hfrom : exists p, In p (_tableOfContentPaths st)
                            /\ load_book disk st p = Returned b).
  { clear -Hb. induction (_tableOfContentPaths st) as [|q paths IH]; [destruct Hb|].
    rewrite loaded_cons in Hb. destruct (load_book disk st q) as [b'|] eqn:Hq.
    - destruct Hb as [<-|Hb]; [exists q; split; [now left | exact Hq]|].
      destruct (IH Hb) as (p & Hp & Hload). exists p. split; [now right | exact Hload].
    - destruct (IH Hb) as (p & Hp & Hload). exists p. split; [now right | exact Hload]. }
  destruct Hfrom as (p & Hp & Hload).
  destruct (load_book_item st p b Hload) as (Hty & Hroot & _ & text & toc & _ & _ & Hpage & Hflat).
  split; [exact Hty|]. split; [now rewrite Hpage | now exists p].
Qed.
End GetBooksMore.

Section DiscoveryMore.
Context `{NodePath} `{BookHost}.

Lemma scan_roots_fields (disk : FileSystem) (maxDepth : option Z)
    (workspacePaths : list string) (st : BookProvider) :
  bookOpenedContext (snd (scan_roots disk maxDepth workspacePaths st))
  = bookOpenedContext st
  /\ readAllTOCFilesFired (snd (scan_roots disk maxDepth workspacePaths st))
     = readAllTOCFilesFired st
  /\ (returned (fst (scan_roots disk maxDepth workspacePaths st))
      = returned (scan_results disk maxDepth workspacePaths)).
Proof.
  revert st. induction workspacePaths as [|w rest IH]; intros st; [now cbn|].
  cbn [scan_roots scan_results].
  destruct (glob disk _ maxDepth) as [found|e]; cbn [mbind Outcome_bind]; [|now cbn].
  destruct (IH (set_tableOfContentPaths (_tableOfContentPaths st ++ found) st))
    as (H1 & H2 & H3).
  rewrite H1, H2, H3. repeat split.
  now destruct (scan_results disk maxDepth rest).
Qed.

(** X9. When every search returns, [getTableOfContentFiles] tells the
    editor once whether a book is open, which is whether the list of TOC
    paths is non-empty afterwards, and fires [onReadAllTOCFiles] once.
    When a search fails the call fails with it and tells nothing, and
    the paths found under the roots before it stay in the list. *)
Theorem getTableOfContentFiles_announces (configured : option Z) (disk : FileSystem)
    (workspacePaths : list string) (st : BookProvider) :
  let result := getTableOfContentFiles configured disk workspacePaths st in
  (returned (scan_results disk (effective_depth configured) workspacePaths) = true ->
   fst result = Returned tt
   /\ bookOpenedContext (snd result)
      = bookOpenedContext st
        ++ [negb (length (_tableOfContentPaths (snd result)) =? 0)%nat]
   /\ readAllTOCFilesFired (snd result) = S (readAllTOCFilesFired st))
  /\ (returned (scan_results disk (effective_depth configured) workspacePaths) = false ->
      returned (fst result) = false
      /\ bookOpenedContext (snd result) = bookOpenedContext st
      /\ readAllTOCFilesFired (snd result) = readAllTOCFilesFired st
      /\ exists found,
           _tableOfContentPaths (snd result) = _tableOfContentPaths st ++ found).
Proof.
  cbv zeta. unfold getTableOfContentFiles.
  destruct (scan_roots_fields disk (effective_depth configured) workspacePaths st)
    as (Hctx & Hfired & Hret).
  destruct (scan_roots_appends disk (effective_depth configured) workspacePaths st)
    as (found & Hpaths & _).
  destruct (scan_roots disk (effective_depth configured) workspacePaths st)
    as [[[]|e] st1]; cbn [fst snd returned] in *.
  - split; [|intros Hfalse; congruence]. intros _. split; [reflexivity|].
    cbn [bookOpenedContext readAllTOCFilesFired announce_scan _tableOfContentPaths].
    rewrite Hctx, Hfired. split; [|reflexivity]. f_equal. f_equal.
    now destruct (_tableOfContentPaths st1).
  - split; [intros Htrue; congruence|]. intros _. split; [reflexivity|].
    split; [exact Hctx|]. split; [exact Hfired|]. now exists found.
Qed.
End DiscoveryMore.

(** ** [getNavigation] after [getSections] *)

Section NavigationProperties.
Context `{NodePath} `{BookHost} `{ItemLinks}.

(** X10. Once [getSections] has returned, every section that resolved
    to a notebook file can be navigated from: [getNavigation] for a
    non-untitled uri with that file's path has navigation, and so has,
    when books are opened as untitled, an untitled uri with the same
    basename. A uri whose key is not in the index has no navigation and
    neither a previous nor a next link. *)
Theorem getNavigation_after_getSections (disk : FileSystem) (toc : list Yaml)
    (r : string) (st st' : BookProvider) (sections : list Yaml)
    (nodes : list BookTreeItem) (s : Yaml) (u : string) :
  getSections disk st toc sections r = (Returned nodes, st') ->
  In s sections -> leaf_url s = Some u -> external_set s = false ->
  existsSync disk (notebook_path r u) = true ->
  (forall uri, scheme uri <> "untitled" -> fsPath uri = notebook_path r u ->
               hasNavigation (getNavigation st' uri) = true)
  /\ (_openAsUntitled st = true ->
      forall uri, scheme uri = "untitled" ->
                  path_basename (fsPath uri) = path_basename (notebook_path r u) ->
                  hasNavigation (getNavigation st' uri) = true)
  /\ (forall uri, _allNotebooks st' !! navigation_key uri = None ->
                  getNavigation st' uri
                  = {| hasNavigation := false; previous := None; next := None |}).
Proof.
  intros Hrun Hin Hurl Hext Hnb.
  destruct (getSections_loop_index disk toc r _ _ _ _ _ Hrun) as (_ & _ & Hnew).
  destruct (Hnew s u Hin Hurl Hext Hnb) as [(nb & Hpath & _) Hbase].
  split; [|split].
  - intros uri Hscheme Hfs. unfold getNavigation, navigation_key.
    destruct (String.eqb_spec (scheme uri) "untitled"); [contradiction|].
    cbn [negb]. now rewrite Hfs, Hpath.
  - intros Hmode uri Hscheme Hfs. destruct (Hbase Hmode) as (nb' & Hkey & _).
    unfold getNavigation, navigation_key. rewrite Hscheme. cbn. now rewrite Hfs, Hkey.
  - intros uri Hnone. unfold getNavigation. now rewrite Hnone.
Qed.
End NavigationProperties.

(** ** [findNextUntitledFileName] *)

Lemma append_cancel_l (a x y : string) : a +:+ x = a +:+ y -> x = y.
Proof.
  induction a as [|c a IH]; [auto|].
  intros Heq. apply IH. now injection Heq.
Qed.

Lemma decimal_inj (n m : nat) : decimal n = decimal m -> n = m.
Proof.
  unfold decimal. intros Heq. apply Unsigned.to_uint_inj.
  assert (Hnonnil : forall k, Nat.to_uint k <> Decimal.Nil).
  { intros k. rewrite <- (Unsigned.of_to k) at 1. rewrite Unsigned.to_of.
    apply unorm_nonnil. }
  apply (f_equal NilZero.uint_of_string) in Heq.
  rewrite !NilZero.usu in Heq by apply Hnonnil. now injection Heq.
Qed.

Lemma untitled_title_inj (baseName : string) (i j : nat) :
  untitled_title baseName i = untitled_title baseName j -> i = j.
Proof.
  unfold untitled_title. intros Heq. apply append_cancel_l in Heq.
  destruct i as [|i], j as [|j]; cbn [Nat.eqb] in Heq; try discriminate;
    [reflexivity|].
  injection Heq as Heq. now apply decimal_inj.
Qed.

Lemma findNext_loop_spec (taken : gset string) (baseName : string) (fuel idx : nat) :
  match findNext_loop taken baseName fuel idx with
  | Some title =>
      exists k, title = untitled_title baseName k /\ idx <= k <= idx + fuel
                /\ (title ∉ taken)
                /\ forall j, idx <= j < k -> untitled_title baseName j ∈ taken
  | None => forall j, idx <= j <= idx + fuel -> untitled_title baseName j ∈ taken
  end.
Proof.
  revert idx. induction fuel as [|fuel IH]; intros idx; cbn [findNext_loop].
  - destruct (bool_decide_reflect (untitled_title baseName idx ∈ taken)) as [Hin|Hout].
    + intros j Hj. now replace j with idx by lia.
    + exists idx. repeat split; [lia | lia | exact Hout | intros j Hj; lia].
  - destruct (bool_decide_reflect (untitled_title baseName idx ∈ taken)) as [Hin|Hout].
    + specialize (IH (S idx)).
      destruct (findNext_loop taken baseName fuel (S idx)) as [title|].
      * destruct IH as (k & -> & Hk & Hfree & Hbelow). exists k.
        repeat split; [lia | lia | exact Hfree |].
        intros j Hj. destruct (decide (j = idx)) as [->|Hne]; [exact Hin|].
        apply Hbelow. lia.
      * intros j Hj. destruct (decide (j = idx)) as [->|Hne]; [exact Hin|].
        apply IH. lia.
    + exists idx. repeat split; [lia | lia | exact Hout | intros j Hj; lia].
Qed.

(** X11. [findNextUntitledFileName] ends, after no more turns than there
    are titles taken plus one, with a title that is free: the basename
    itself, or the basename with the smallest suffix [-k] such that the
    basename and all of [-1] ... [-(k-1)] are taken. *)
Theorem findNextUntitledFileName_free `{NodePath} (taken : gset string)
    (filePath : string) :
  exists k,
    findNextUntitledFileName taken filePath
    = Some (untitled_title (path_basename filePath) k)
    /\ k <= size taken
    /\ (untitled_title (path_basename filePath) k ∉ taken)
    /\ forall j, j < k -> untitled_title (path_basename filePath) j ∈ taken.
Proof.
  unfold findNextUntitledFileName.
  pose proof (findNext_loop_spec taken (path_basename filePath) (size taken) 0) as Hspec.
  destruct (findNext_loop taken (path_basename filePath) (size taken) 0) as [title|].
  - destruct Hspec as (k & -> & Hk & Hfree & Hbelow). exists k.
    repeat split; [lia | exact Hfree | intros j Hj; apply Hbelow; lia].
  - exfalso.
    set (candidates := map (untitled_title (path_basename filePath))
                           (seq 0 (S (size taken)))).
    assert (Hnodup : NoDup candidates).
    { apply NoDup_fmap_2; [|apply NoDup_seq].
      intros i j. apply untitled_title_inj. }
    assert (Hsub : list_to_set candidates ⊆ taken).
    { intros x Hx. apply elem_of_list_to_set in Hx.
      apply list_elem_of_fmap in Hx. destruct Hx as (j & -> & Hj).
      apply elem_of_seq in Hj. apply Hspec. lia. }
    apply subseteq_size in Hsub. rewrite size_list_to_set in Hsub by exact Hnodup.
    unfold candidates in Hsub. rewrite length_map, length_seq in Hsub. lia.
Qed.

Lemma getNavigation_after_getSections_witness :
  hasNavigation
    (getNavigation (H:=posix_path) (H0:=demo_links)
       (demo_after false [ghost_section; intro_section])
       {| scheme := "file"; fsPath := "/ws/demo/content/intro.ipynb" |}) = true.
Proof.
  destruct (getNavigation_after_getSections (H:=posix_path) (H0:=demo_host)
              (H1:=demo_links) demo_disk [] "/ws/demo" (new_provider false)
              (demo_after false [ghost_section; intro_section])
              [ghost_section; intro_section]
              (demo_items [ghost_section; intro_section]) intro_section "intro")
    as (Hfile & _);
    [vm_compute; reflexivity | right; now left | reflexivity | reflexivity
     | vm_compute; reflexivity |].
  apply Hfile; [discriminate | reflexivity].
Defined.

Lemma getTableOfContentFiles_announces_witness :
  bookOpenedContext
    (snd (getTableOfContentFiles (H:=posix_path) (H0:=demo_host) None demo_disk
            ["/ws"] (new_provider false)))
  = [] ++ [negb (length (_tableOfContentPaths
                           (snd (getTableOfContentFiles (H:=posix_path) (H0:=demo_host)
                                   None demo_disk ["/ws"] (new_provider false))))
                 =? 0)%nat].
Proof.
  destruct (getTableOfContentFiles_announces (H:=posix_path) (H0:=demo_host)
              None demo_disk ["/ws"] (new_provider false)) as [Hok _].
  destruct Hok as (_ & Hctx & _); [reflexivity|]. exact Hctx.
Defined.

Example findNextUntitledFileName_demo :
  findNextUntitledFileName (H:=posix_path) {["intro.ipynb"; "intro.ipynb-1"]}
    "/ws/demo/content/intro.ipynb" = Some "intro.ipynb-2"
  /\ findNextUntitledFileName (H:=posix_path) ∅ "/ws/demo/content/intro.ipynb"
     = Some "intro.ipynb".
Proof. split; vm_compute; reflexivity. Qed.

(** ** The throttle never holds two timers *)

Lemma insert_by_due_length (tm : Timer) (sorted : list Timer) :
  length (insert_by_due tm sorted) = S (length sorted).
Proof.
  induction sorted as [|x rest IH]; [reflexivity|].
  cbn [insert_by_due]. destruct (due tm <? due x)%Z; cbn [length]; [reflexivity|].
  now rewrite IH.
Qed.

Lemma sort_by_due_length (l : list Timer) : length (sort_by_due l) = length l.
Proof.
  unfold sort_by_due.
  assert (Hgen : forall acc,
             length (fold_left (fun sorted tm => insert_by_due tm sorted) l acc)
             = length acc + length l).
  { induction l as [|tm l IH]; intros acc; cbn [fold_left length]; [lia|].
    rewrite IH, insert_by_due_length. lia. }
  now rewrite Hgen.
Qed.

Lemma advance_counts (t : Z) (w : Clock) :
  length (invoked (advance t w)) + length (timers (advance t w))
  = length (invoked w) + length (timers w).
Proof.
  unfold advance. cbn [invoked timers].
  rewrite length_app, length_map, sort_by_due_length.
  induction (timers w) as [|tm l IH]; cbn [List.filter length]; [lia|].
  destruct (Z.leb_spec (due tm) t), (Z.ltb_spec t (due tm)); cbn [length]; lia.
Qed.

Lemma advance_inv (t : Z) (st : BookProvider) (w : Clock) :
  throttle_inv (st, w) -> throttle_inv (st, advance t w).
Proof.
  unfold throttle_inv. cbn [fst snd]. intros [Hnone|(tm & Hone & Hheld)].
  - left. unfold advance. cbn [timers]. now rewrite Hnone.
  - unfold advance. cbn [timers]. rewrite Hone. cbn [List.filter].
    destruct (t <? due tm)%Z; [right; now exists tm | now left].
Qed.

Lemma runThrottledAction_inv (st : BookProvider) (w : Clock)
    (resource : string) (action : nat) :
  throttle_inv (st, w) ->
  throttle_inv (runThrottledAction resource action (st, w))
  /\ length (invoked (snd (runThrottledAction resource action (st, w))))
     + length (timers (snd (runThrottledAction resource action (st, w))))
     <= S (length (invoked w) + length (timers w)).
Proof.
  intros Hinv. destruct (same_resource resource (_resource st)) eqn:Hsame.
  - apply same_resource_true in Hsame.
    destruct (_throttleTimer st) as [h|] eqn:Hheld.
    + rewrite (runThrottledAction_drop st w resource action h Hsame Hheld).
      split; [exact Hinv | cbn [snd]; lia].
    + rewrite (runThrottledAction_schedule st w resource action Hsame Hheld).
      destruct Hinv as [Hnone|(tm & _ & Hsome)]; cbn [fst snd] in *; [|congruence].
      split.
      * right. eexists. cbn [setTimeout snd timers fst _throttleTimer set_throttle].
        rewrite Hnone. split; reflexivity.
      * cbn [setTimeout snd timers invoked]. rewrite length_app. cbn [length]. lia.
  - assert (Hne : _resource st <> Some resource).
    { intros Heq. apply same_resource_true in Heq. congruence. }
    rewrite (runThrottledAction_change st w resource action Hne).
    assert (Hcleared : timers (clearTimeout (_throttleTimer st) w) = []
                       /\ invoked (clearTimeout (_throttleTimer st) w) = invoked w).
    { destruct Hinv as [Hnone|(tm & Hone & Hheld)]; cbn [fst snd] in *.
      - destruct (_throttleTimer st); cbn; now rewrite ?Hnone.
      - rewrite Hheld. cbn. rewrite Hone. cbn. now rewrite Nat.eqb_refl. }
    destruct Hcleared as [Htimers Hinvoked]. split.
    + left. cbn [snd invoke timers]. exact Htimers.
    + cbn [snd invoke timers invoked]. rewrite Htimers, length_app, Hinvoked.
      cbn [length]. lia.
Qed.

(** X12. However the requests come, the provider never has two timers
    pending and holds the handle of the one that is; and no more actions
    have run or are scheduled than requests were made, so that no
    request's action runs twice. *)
Theorem throttle_single_timer (requests : list Request) (sw : BookProvider * Clock) :
  throttle_inv sw ->
  throttle_inv (fold_left serve requests sw)
  /\ length (timers (snd (fold_left serve requests sw))) <= 1
  /\ length (invoked (snd (fold_left serve requests sw)))
     + length (timers (snd (fold_left serve requests sw)))
     <= length (invoked (snd sw)) + length (timers (snd sw)) + length requests.
Proof.
  revert sw. induction requests as [|q requests IH]; intros [st w] Hinv.
  - cbn [fold_left length]. split; [exact Hinv|]. split; [|lia].
    destruct Hinv as [Hnone|(tm & Hone & _)]; cbn [snd] in *;
      [rewrite Hnone | rewrite Hone]; cbn; lia.
  - cbn [fold_left].
    change (serve (st, w) q)
      with (runThrottledAction (for_resource q) (with_action q)
              (st, advance (at_time q) w)).
    destruct (runThrottledAction_inv st (advance (at_time q) w)
                (for_resource q) (with_action q) (advance_inv _ _ _ Hinv))
      as [Hinv' Hcount].
    rewrite advance_counts in Hcount.
    destruct (IH _ Hinv') as (Hfinal & Hone & Htotal).
    split; [exact Hfinal|]. split; [exact Hone|]. cbn [length snd]. lia.
Qed.

Lemma throttle_single_timer_witness :
  length (timers (snd (fold_left serve
                         [{| at_time := 0; for_resource := "a.md"; with_action := 1 |};
                          {| at_time := 5; for_resource := "a.md"; with_action := 2 |};
                          {| at_time := 9; for_resource := "a.md"; with_action := 3 |}]
                         (new_provider false, new_clock)))) <= 1.
Proof.
  destruct (throttle_single_timer
              [{| at_time := 0; for_resource := "a.md"; with_action := 1 |};
               {| at_time := 5; for_resource := "a.md"; with_action := 2 |};
               {| at_time := 9; for_resource := "a.md"; with_action := 3 |}]
              (new_provider false, new_clock)) as (_ & Hone & _).
  - left. reflexivity.
  - exact Hone.
Defined.

(** ** [macroExpansion]: when it throws, and templates without macros *)








Lemma createNewProject_invalid_guid_witness :
  createNewProject (H:=posix_path) (H0:=demo_texts)
    "6ba7b810-9dad-11d1-80b4-00c04fd430c8" "Sales" "/ws" (Some "not-a-guid")
  = Reject "Specified GUID is invalid: 'not-a-guid'".
Proof.
  apply (createNewProject_invalid_guid (H:=posix_path) (H0:=demo_texts));
    [discriminate | reflexivity].
Defined.

(** ** [createNewProject]: the file it checks and writes *)

Section CreateProjectMore.
Context `{NodePath} `{ProjectTexts}.


End CreateProjectMore.


(** ** The project file's name, and [isUUID] *)

Lemma map_string_append (f : ascii -> ascii) (a b : string) :
  map_string f (a +:+ b) = map_string f a +:+ map_string f b.
Proof.
  induction a as [|c a IH]; [reflexivity|].
  change (String (f c) (map_string f (a +:+ b))
          = String (f c) (map_string f a +:+ map_string f b)).
  now rewrite IH.
Qed.

Lemma substring_whole (s : string) : substring 0 (String.length s) s = s.
Proof.
  induction s as [|c s IH]; [reflexivity|].
  change (String c (substring 0 (String.length s) s) = String c s). now rewrite IH.
Qed.

Lemma substring_after_append (a b : string) (n : nat) :
  substring (String.length a) n (a +:+ b) = substring 0 n b.
Proof. induction a as [|c a IH]; [reflexivity | exact IH]. Qed.

Lemma endsWith_append (a b : string) : endsWith (a +:+ b) b = true.
Proof.
  unfold endsWith. rewrite length_append.
  replace (String.length a + String.length b - String.length b)%nat
    with (String.length a) by lia.
  rewrite substring_after_append, substring_whole, String.eqb_refl.
  rewrite andb_true_r. apply Nat.leb_le. lia.
Qed.

(** X18. The project file's name always carries the project extension,
    compared without regard to case: a name that already ends with it,
    in whatever case, is kept as it is, and any other name gets it
    appended. (The extension itself is in lower case.) *)
Theorem project_file_name_extension `{ProjectTexts} (newProjName : string) :
  toLowerCase sqlprojExtension = sqlprojExtension ->
  endsWith (toLowerCase (project_file_name newProjName)) sqlprojExtension = true
  /\ (endsWith (toLowerCase newProjName) sqlprojExtension = true ->
      project_file_name newProjName = newProjName)
  /\ (endsWith (toLowerCase newProjName) sqlprojExtension = false ->
      project_file_name newProjName = newProjName +:+ sqlprojExtension).
Proof.
  intros Hlower. unfold project_file_name.
  destruct (endsWith (toLowerCase newProjName) sqlprojExtension) eqn:Hends.
  - repeat split; [exact Hends | discriminate].
  - split; [|split; [discriminate | reflexivity]].
    unfold toLowerCase. rewrite map_string_append.
    fold (toLowerCase sqlprojExtension). rewrite Hlower. apply endsWith_append.
Qed.

Lemma project_file_name_extension_witness :
  project_file_name (H:=demo_texts) "Sales.SqlProj" = "Sales.SqlProj"
  /\ project_file_name (H:=demo_texts) "Sales" = "Sales" +:+ ".sqlproj".
Proof.
  destruct (project_file_name_extension (H:=demo_texts) "Sales.SqlProj" eq_refl)
    as (_ & Hkept & _).
  destruct (project_file_name_extension (H:=demo_texts) "Sales" eq_refl)
    as (_ & _ & Hadded).
  split; [apply Hkept | apply Hadded]; reflexivity.
Defined.

Lemma upper_ascii_hex (c : ascii) : is_hex (upper_ascii c) = is_hex c.
Proof. destruct c as [[] [] [] [] [] [] [] []]; reflexivity. Qed.

Lemma upper_ascii_dash (c : ascii) : Ascii.eqb (upper_ascii c) "-" = Ascii.eqb c "-".
Proof. destruct c as [[] [] [] [] [] [] [] []]; reflexivity. Qed.

Lemma dash_then_eq (f : string -> option string) (s : option string) :
  dash_then f s
  = match s with
    | Some (String c rest) => if Ascii.eqb c "-" then f rest else None
    | _ => None
    end.
Proof.
  destruct s as [[|c rest]|]; try reflexivity.
  destruct c as [[] [] [] [] [] [] [] []]; reflexivity.
Qed.

Lemma hex_digits_step (n : nat) : uuid_step n (hex_digits n).
Proof.
  induction n as [|n IH]; intros s; [now split; [|intros r [= <-]]|].
  destruct s as [|c s]; [split; [reflexivity | discriminate]|].
  unfold toUpperCase in *. cbn [map_string hex_digits]. rewrite upper_ascii_hex.
  destruct (is_hex c); [|split; [reflexivity | discriminate]].
  destruct (IH s) as [Hup Hlen]. split; [exact Hup|].
  intros r Hr. cbn [String.length]. rewrite (Hlen r Hr). lia.
Qed.

Lemma dash_then_step (n m : nat) (f g : string -> option string) :
  uuid_step n f -> uuid_step m g ->
  uuid_step (m + 1 + n) (fun s => dash_then f (g s)).
Proof.
  intros Hf Hg s. destruct (Hg s) as [Hup Hlen]. rewrite Hup, !dash_then_eq.
  destruct (g s) as [[|c rest]|]; cbn [option_map];
    try (split; [reflexivity | discriminate]).
  unfold toUpperCase at 1. cbn [map_string]. rewrite upper_ascii_dash.
  destruct (Ascii.eqb c "-"); [|split; [reflexivity | discriminate]].
  destruct (Hf rest) as [Hup' Hlen']. split; [exact Hup'|].
  intros r Hr. rewrite (Hlen (String c rest) eq_refl). cbn [String.length].
  rewrite (Hlen' r Hr). lia.
Qed.

(** [isUUID] does not look at the case of the letters, so the
    upper-cased GUID that [createNewProject] generates is a UUID when the
    generated one is; and what it accepts is 36 characters long. *)
Theorem isUUID_case_and_length (value : string) :
  isUUID (toUpperCase value) = isUUID value
  /\ (isUUID value = true -> String.length value = 36).
Proof.
  pose proof (dash_then_step _ _ _ _ (hex_digits_step 12)
                (dash_then_step _ _ _ _ (hex_digits_step 4)
                   (dash_then_step _ _ _ _ (hex_digits_step 4)
                      (dash_then_step _ _ _ _ (hex_digits_step 4)
                         (hex_digits_step 8)))) value) as [Hup Hlen].
  unfold isUUID. cbv beta in Hup, Hlen. rewrite Hup. clear Hup.
  destruct (dash_then (hex_digits 12)
              (dash_then (hex_digits 4)
                 (dash_then (hex_digits 4)
                    (dash_then (hex_digits 4) (hex_digits 8 value)))))
    as [[|c r]|]; cbn [option_map].
  - split; [reflexivity|]. intros _. rewrite (Hlen EmptyString eq_refl). reflexivity.
  - split; [reflexivity | discriminate].
  - split; [reflexivity | discriminate].
Qed.

Lemma isUUID_case_and_length_witness :
  String.length "6ba7b810-9dad-11d1-80b4-00c04fd430c8" = 36.
Proof.
  apply (isUUID_case_and_length "6ba7b810-9dad-11d1-80b4-00c04fd430c8"). reflexivity.
Defined.

(** ** [openProject] and [closeProject] *)

Section OpenProjectProperties.
Context `{ControllerTexts}.


Lemma find_path_unique (l : list Project) (p : Project) :
  NoDup (map projectFilePath l) -> In p l ->
  List.find (fun proj => String.eqb (projectFilePath proj) (projectFilePath p)) l
  = Some p.
Proof.
  induction l as [|q l IH]; [intros _ []|].
  cbn [map List.find]. intros Hnodup Hin. apply NoDup_cons in Hnodup.
  destruct Hnodup as [Hq Hnodup]. destruct Hin as [->|Hin].
  - now rewrite String.eqb_refl.
  - destruct (String.eqb_spec (projectFilePath q) (projectFilePath p)) as [Heq|_];
      [|now apply IH].
    exfalso. apply Hq. rewrite Heq. apply list_elem_of_In. now apply in_map.
Qed.



(** X20. Opening the file of a project that is open gives back that very
    project: a message says so, and the list of projects and the tree
    are left as they were, whatever reading the file would have given. *)
Theorem openProject_again (p : Project) (readProjFile : Awaited unit)
    (load : Awaited (list string)) (c : ProjectsController) :
  controller_ok c -> In p (projects c) ->
  openProject (projectFilePath p) readProjFile load c
  = (Returned p,
     showInformationMessage (projectAlreadyOpened (projectFilePath p)) c).
Proof.
  intros (Hpaths & _) Hin. unfold openProject.
  now rewrite (find_path_unique (projects c) p Hpaths Hin).
Qed.

(** X21. Closing a project that was just opened undoes the opening: the
    list of projects is the one from before, and the tree has been
    loaded with it. Closing from a node that belongs to no project, or
    from no node, throws and changes nothing. *)
Theorem closeProject_undoes_openProject (projectFile : string)
    (load : Awaited (list string)) (c : ProjectsController) (p : Project)
    (c1 : ProjectsController) :
  controller_ok c ->
  ~ In projectFile (map projectFilePath (projects c)) ->
  openProject projectFile (Fulfilled tt) load c = (Returned p, c1) ->
  In p (projects c1)
  /\ projects (snd (closeProject (Some (node_of p)) c1)) = projects c
  /\ last (treeLoads (snd (closeProject (Some (node_of p)) c1))) = Some (projects c)
  /\ (forall path, closeProject (Some {| rootProject := None; uriPath := path |}) c1
                   = (Thrown ("Unable to establish project context.  Command invoked from unexpected location: " +:+ path), c1))
  /\ returned (fst (closeProject None c1)) = false.
Proof.
  intros (Hpaths & Hids & Hbound) Hnew. unfold openProject.
  destruct (List.find _ (projects c)) as [proj|] eqn:Hfind.
  { exfalso. apply Hnew. apply find_some in Hfind. destruct Hfind as [Hin Heq].
    apply String.eqb_eq in Heq. rewrite <- Heq. now apply in_map. }
  assert (Hfilter : forall sources,
             List.filter (fun e => negb (projectId e =? nextProjectId c)%nat)
               (projects c ++ [{| projectId := nextProjectId c;
                                  projectFilePath := projectFile;
                                  dataSources := sources |}])
             = projects c).
  { intros sources. rewrite List.filter_app. cbn [List.filter projectId].
    rewrite Nat.eqb_refl. cbn [negb]. rewrite app_nil_r.
    apply forallb_filter_id. apply forallb_forall. intros q Hq.
    rewrite List.Forall_forall in Hbound. specialize (Hbound q Hq).
    apply negb_true_iff, Nat.eqb_neq. lia. }
  destruct load as [sources| |e]; [| |discriminate]; intros [= <- <-];
    cbn [closeProject getProjectContextFromTreeNode node_of rootProject projects
         refreshProjectsTree set_projects snd fst treeLoads projectId returned];
    rewrite Hfilter, last_snoc;
    (split; [apply in_or_app; right; now left|]); repeat split.
Qed.
End OpenProjectProperties.

Lemma openProject_again_witness :
  let opened :=
    openProject (H:=demo_controller_texts) "/ws/Sales.sqlproj" (Fulfilled tt)
      (Fulfilled ["local"]) new_controller in
  fst (openProject (H:=demo_controller_texts) "/ws/Sales.sqlproj" (Failed "gone")
         NoDataSourcesFile (snd opened))
  = Returned {| projectId := 0; projectFilePath := "/ws/Sales.sqlproj";
                dataSources := ["local"] |}.
Proof.
  cbv zeta.
  rewrite (openProject_again (H:=demo_controller_texts)
             {| projectId := 0; projectFilePath := "/ws/Sales.sqlproj";
                dataSources := ["local"] |}).
  - reflexivity.
  - repeat split; cbn; repeat constructor; set_solver.
  - left. reflexivity.
Defined.


Lemma closeProject_undoes_openProject_witness :
  projects
    (snd (closeProject
            (Some (node_of {| projectId := 0; projectFilePath := "/ws/Sales.sqlproj";
                              dataSources := [] |}))
            (snd (openProject (H:=demo_controller_texts) "/ws/Sales.sqlproj"
                    (Fulfilled tt) NoDataSourcesFile new_controller))))
  = projects new_controller.
Proof.
  destruct (closeProject_undoes_openProject (H:=demo_controller_texts)
              "/ws/Sales.sqlproj" NoDataSourcesFile new_controller
              {| projectId := 0; projectFilePath := "/ws/Sales.sqlproj";
                 dataSources := [] |}
              (snd (openProject (H:=demo_controller_texts) "/ws/Sales.sqlproj"
                      (Fulfilled tt) NoDataSourcesFile new_controller)))
    as (_ & Hclosed & _).
  - repeat split; cbn; constructor.
  - intros [].
  - reflexivity.
  - exact Hclosed.
Defined.

(** ** [generateList] *)

Section GenerateListProperties.
Context `{NodePath} `{ControllerTexts}.

Lemma forest_size_cons (e : string * FsTree) (l : list (string * FsTree)) :
  forest_size (e :: l) = tree_size (snd e) + forest_size l.
Proof. reflexivity. Qed.

Lemma tree_size_dir (entries : list (string * FsTree)) :
  tree_size (DirT entries) = S (forest_size entries).
Proof.
  cbn [tree_size]. f_equal.
  induction entries as [|e es IH]; [reflexivity|].
  now rewrite forest_size_cons, IH.
Qed.

Lemma tree_size_pos (t : FsTree) : 1 <= tree_size t.
Proof. destruct t; cbn; lia. Qed.

Lemma forest_size_app (l1 l2 : list (string * FsTree)) :
  forest_size (l1 ++ l2) = forest_size l1 + forest_size l2.
Proof. unfold forest_size. now rewrite map_app, list_sum_app. Qed.

Lemma forest_size_children (filepath : string) (entries : list (string * FsTree)) :
  forest_size (rev (map (child_of filepath) entries)) = forest_size entries.
Proof.
  induction entries as [|e es IH]; [reflexivity|].
  cbn [map rev]. rewrite forest_size_app, IH, !forest_size_cons.
  cbn [child_of snd]. unfold forest_size at 2. cbn. lia.
Qed.

Lemma listing_dir (filepath : string) (entries : list (string * FsTree)) :
  listing filepath (DirT entries)
  = if String.eqb filepath EmptyString then []
    else filepath :: forest_listing (rev (map (child_of filepath) entries)).
Proof.
  cbn [listing]. destruct (String.eqb filepath EmptyString); [reflexivity|]. f_equal.
  unfold forest_listing.
  induction entries as [|e es IH]; [reflexivity|].
  cbn [map rev]. rewrite flat_map_app, <- IH. cbn [flat_map child_of fst snd].
  now rewrite app_nil_r.
Qed.

(** One turn lists the path it pops and leaves the rest of its tree on the
    stack. *)
Lemma generateList_turn_spec (filepath : string) (t : FsTree)
    (rest : list (string * FsTree)) (acc : list string) :
  exists delta,
    snd (generateList_turn ((filepath, t) :: rest) acc) = acc ++ delta
    /\ delta ++ forest_listing (fst (generateList_turn ((filepath, t) :: rest) acc))
       = listing filepath t ++ forest_listing rest
    /\ forest_size (fst (generateList_turn ((filepath, t) :: rest) acc))
       < tree_size t + forest_size rest.
Proof.
  pose proof (tree_size_pos t) as Hpos. cbn [generateList_turn].
  destruct (String.eqb filepath EmptyString) eqn:Hempty.
  - exists []. cbn [fst snd]. rewrite app_nil_r. split; [reflexivity|].
    split; [|lia]. destruct t; cbn [listing]; now rewrite Hempty.
  - destruct t as [|entries|]; cbn [fst snd].
    + exists [filepath]. split; [reflexivity|]. split; [|lia].
      cbn [listing]. now rewrite Hempty.
    + exists [filepath]. split; [reflexivity|]. split.
      * rewrite listing_dir, Hempty. unfold forest_listing. rewrite flat_map_app.
        reflexivity.
      * rewrite forest_size_app, forest_size_children, tree_size_dir. lia.
    + exists []. rewrite app_nil_r. split; [reflexivity|]. split; [|lia].
      cbn [listing]. now rewrite Hempty.
Qed.

Lemma generateList_loop_lists (fuel : nat) (files : list (string * FsTree))
    (acc : list string) :
  files <> [] -> forest_size files <= fuel ->
  generateList_loop fuel files acc = Some (acc ++ forest_listing files).
Proof.
  revert files acc. induction fuel as [|fuel IH]; intros files acc Hne Hfuel.
  - destruct files as [|[p t] rest]; [contradiction|].
    rewrite forest_size_cons in Hfuel. cbn [snd] in Hfuel.
    pose proof (tree_size_pos t). lia.
  - destruct files as [|[p t] rest]; [contradiction|].
    destruct (generateList_turn_spec p t rest acc) as (delta & Hacc & Hlist & Hsize).
    cbn [generateList_loop].
    destruct (generateList_turn ((p, t) :: rest) acc) as [files' list'].
    cbn [fst snd] in *. subst list'.
    assert (Hall : forest_listing ((p, t) :: rest)
                   = listing p t ++ forest_listing rest) by reflexivity.
    rewrite Hall, <- Hlist, app_assoc.
    destruct files' as [|e files']; [now rewrite app_nil_r|].
    apply IH; [discriminate|].
    rewrite forest_size_cons in Hfuel. cbn [snd] in Hfuel.
    lia.
Qed.

Lemma listing_count (filepath : string) (t : FsTree) :
  (forall a b, path_join [a; b] <> EmptyString) ->
  filepath <> EmptyString ->
  length (listing filepath t) = count_entries t.
Proof.
  intros Hjoin. revert filepath.
  induction t as [| |entries IH] using FsTree_nested_ind; intros filepath Hne;
    cbn [listing count_entries];
    destruct (String.eqb_spec filepath EmptyString); try contradiction;
    try reflexivity.
  cbn [length]. f_equal.
  induction IH as [|e es He _ IHes]; [reflexivity|].
  rewrite length_app, IHes, (He _ (Hjoin filepath (fst e))). lia.
Qed.

(** X22. For a path that exists, [generateList] ends and lists the files
    and folders of the tree there, each folder before what is under it
    and the entries of a folder last to first; nothing else is listed,
    so there are as many paths as files and folders, and no error is
    shown. *)
Theorem generateList_lists_tree (tree_at : string -> option FsTree)
    (absolutePath : string) (t : FsTree) :
  tree_at absolutePath = Some t ->
  generateList tree_at absolutePath = (Some (listing absolutePath t), None)
  /\ ((forall a b, path_join [a; b] <> EmptyString) ->
      absolutePath <> EmptyString ->
      length (listing absolutePath t) = count_entries t).
Proof.
  intros Hexists. unfold generateList. rewrite Hexists. split.
  - rewrite generateList_loop_lists; [|discriminate|].
    + unfold forest_listing. cbn [flat_map fst snd app]. now rewrite app_nil_r.
    + rewrite forest_size_cons. cbn. lia.
  - apply listing_count.
Qed.

(** X23. For a path that does not exist, [generateList] walks the path
    with the SQL file extension appended when that exists, and otherwise
    shows that the path cannot be resolved and lists nothing. *)
Theorem generateList_fallback (tree_at : string -> option FsTree)
    (absolutePath : string) :
  tree_at absolutePath = None ->
  (forall t, tree_at (absolutePath +:+ sqlFileExtension) = Some t ->
             generateList tree_at absolutePath
             = (Some (listing (absolutePath +:+ sqlFileExtension) t), None))
  /\ (tree_at (absolutePath +:+ sqlFileExtension) = None ->
      generateList tree_at absolutePath
      = (Some [], Some (cannotResolvePath absolutePath))).
Proof.
  intros Hmissing. unfold generateList. rewrite Hmissing. split.
  - intros t Ht. rewrite Ht. rewrite generateList_loop_lists; [|discriminate|].
    + unfold forest_listing. cbn [flat_map fst snd app]. now rewrite app_nil_r.
    + rewrite forest_size_cons. cbn. lia.
  - intros Hnone. now rewrite Hnone.
Qed.
End GenerateListProperties.

Lemma generateList_lists_tree_witness :
  generateList (H:=posix_path) (H0:=demo_controller_texts) demo_tree_at "/ws/db"
  = (Some ["/ws/db"; "/ws/db/Views"; "/ws/db/Tables"; "/ws/db/Tables/Items.sql";
           "/ws/db/Tables/Orders.sql"], None).
Proof.
  apply (generateList_lists_tree (H:=posix_path) (H0:=demo_controller_texts)
           demo_tree_at "/ws/db" demo_tree).
  reflexivity.
Defined.

Lemma generateList_fallback_witness :
  generateList (H:=posix_path) (H0:=demo_controller_texts) demo_tree_at "/ws/script"
  = (Some ["/ws/script.sql"], None)
  /\ generateList (H:=posix_path) (H0:=demo_controller_texts) demo_tree_at "/ws/nothing"
     = (Some [], Some "Cannot resolve path /ws/nothing").
Proof.
  destruct (generateList_fallback (H:=posix_path) (H0:=demo_controller_texts)
              demo_tree_at "/ws/script" eq_refl) as [Hsql _].
  destruct (generateList_fallback (H:=posix_path) (H0:=demo_controller_texts)
              demo_tree_at "/ws/nothing" eq_refl) as [_ Hnone].
  split; [apply (Hsql FileT) | apply Hnone]; reflexivity.
Defined.

(** ** The suggested name of a new object *)

Lemma prefix_one_char (a c : ascii) (rest : string) :
  String.prefix (String a EmptyString) (String c rest) = Ascii.eqb c a.
Proof.
  cbn [String.prefix]. destruct (ascii_dec a c) as [->|Hne].
  - rewrite Ascii.eqb_refl. now destruct rest.
  - symmetry. apply Ascii.eqb_neq. congruence.
Qed.

(** X24. The name suggested for a new object is the friendly name of its
    kind with every lower-case letter s taken out, and nothing else (the
    white space stays), followed by [1]: the pattern ['\s'] is written
    in a string literal, where it is the letter s. *)
Theorem suggestedName_drops_s (friendlyName : string) :
  suggestedName friendlyName
  = filter_string (fun c => negb (Ascii.eqb c "s")) friendlyName +:+ "1".
Proof.
  unfold suggestedName, js_replace_global. f_equal.
  generalize 0 at 1. generalize friendlyName at 1.
  induction friendlyName as [|c rest IH]; intros whole position; [reflexivity|].
  cbn [replace_all_from filter_string]. rewrite prefix_one_char.
  destruct (Ascii.eqb c "s"); cbn [negb String.length Nat.sub expand_replacement];
    [apply IH | now rewrite IH].
Qed.

Example suggestedName_demo :
  suggestedName "Post-Deployment Script" = "Pot-Deployment Script1"
  /\ suggestedName "Stored Procedure" = "Stored Procedure1".
Proof. split; reflexivity. Qed.

(** ** The Azure Arc tree: adding, removing, saving *)

Section ArcMore.
Context `{ArcHost}.

Lemma update_found_spec (m : ControllerModel) (nodes nodes' : list ControllerTreeNode) :
  update_found m nodes = Some nodes' ->
  map nodeId nodes' = map nodeId nodes
  /\ exists node, In node nodes' /\ info (model node) = info m.
Proof.
  revert nodes'. induction nodes as [|node rest IH]; intros nodes'; [discriminate|].
  cbn [update_found]. destruct (model_equals m (model node)).
  - intros [= <-]. split; [reflexivity|]. eexists. split; [now left | reflexivity].
  - destruct (update_found m rest) as [rest'|]; [|discriminate].
    intros [= <-]. destruct (IH rest' eq_refl) as [Hids (n & Hn & Hinfo)].
    split; [cbn [map]; now rewrite Hids|]. exists n. split; [now right | exact Hinfo].
Qed.


Lemma new_nodes_infos (first : nat) (models : list ControllerModel) :
  map model (new_nodes first models) = models
  /\ map nodeId (new_nodes first models) = seq first (length models).
Proof.
  revert first. induction models as [|m rest IH]; intros first; [now split|].
  cbn [new_nodes map length seq]. destruct (IH (S first)) as [-> ->]. now split.
Qed.

(** X26. What [saveControllers] stores, [loadSavedControllers] restores:
    a provider started on the saved list has, once loaded, controller
    nodes with the same infos in the same order, all distinct objects,
    and it mirrors the saved list. *)
Theorem arc_save_then_load (p : ArcProvider) :
  let saved := memento (saveControllers p) in
  let restarted := snd (loadSavedControllers (Returned saved) (new_arc_provider saved)) in
  map (fun node => info (model node)) (_controllerNodes restarted)
  = map (fun node => info (model node)) (_controllerNodes p)
  /\ arc_saved restarted
  /\ arc_ok restarted
  /\ _loading restarted = false.
Proof.
  cbv zeta. unfold loadSavedControllers, arc_saved, arc_ok.
  cbn [snd _controllerNodes memento saveControllers new_arc_provider nextNodeId _loading].
  set (infos := map (fun node => info (model node)) (_controllerNodes p)).
  destruct (new_nodes_infos 0 (map (fun i => {| info := i |}) infos)) as [Hmodels Hids].
  assert (Hinfos : map (fun node => info (model node))
                     (new_nodes 0 (map (fun i => {| info := i |}) infos)) = infos).
  { rewrite <- (map_map model info), Hmodels, map_map. cbn. apply map_id. }
  rewrite Hinfos, Hids, length_map. repeat split.
  - apply NoDup_seq.
  - apply List.Forall_forall. intros node Hnode.
    assert (Hid : In (nodeId node) (seq 0 (length infos))).
    { rewrite <- (length_map (fun i => {| info := i |}) infos), <- Hids.
      now apply in_map. }
    apply in_seq in Hid. lia.
Qed.

Lemma arc_call_ok (p : ArcProvider) (c : ArcCall) : arc_ok p -> arc_ok (arc_call p c).
Proof.
  intros [Hids Hbound]. destruct c as [| | | m password refreshTree providerReady | node |];
    try (now split).
  - cbn [arc_call]. unfold addOrUpdateController, arc_ok.
    destruct (update_found m (_controllerNodes p)) as [nodes|] eqn:Hfound.
    + destruct (update_found_spec _ _ _ Hfound) as [Hsame _].
      assert (Hok : NoDup (map nodeId nodes)
                    /\ Forall (fun n => nodeId n < nextNodeId p) nodes).
      { rewrite Hsame. split; [exact Hids|].
        apply List.Forall_forall. intros n Hn.
        assert (Hid : In (nodeId n) (map nodeId (_controllerNodes p)))
          by (rewrite <- Hsame; now apply in_map).
        apply in_map_iff in Hid. destruct Hid as (n' & <- & Hn').
        rewrite List.Forall_forall in Hbound. now apply Hbound. }
      destruct providerReady, refreshTree; exact Hok.
    + assert (Hok : NoDup (map nodeId (_controllerNodes p
                                         ++ [{| nodeId := nextNodeId p; model := m |}]))
                    /\ Forall (fun n => nodeId n < S (nextNodeId p))
                         (_controllerNodes p ++ [{| nodeId := nextNodeId p; model := m |}])).
      { rewrite map_app. split.
        - apply NoDup_app. split; [exact Hids|]. split; [|apply NoDup_singleton].
          intros x Hx Hx'. apply list_elem_of_singleton in Hx'. subst x.
          apply list_elem_of_In, in_map_iff in Hx. destruct Hx as (n & Hn & Hin).
          rewrite List.Forall_forall in Hbound. specialize (Hbound n Hin).
          cbn [nodeId] in Hn. lia.
        - apply Forall_app. split; [|repeat constructor].
          eapply Forall_impl; [exact Hbound|]. cbn. intros n Hn. lia. }
      destruct providerReady, refreshTree; exact Hok.
  - cbn [arc_call]. unfold removeController, arc_ok.
    cbn [saveControllers fire set_controllerNodes _controllerNodes nextNodeId].
    split.
    + clear Hbound. induction (_controllerNodes p) as [|n l IH]; [constructor|].
      cbn [map List.filter] in *. apply NoDup_cons in Hids. destruct Hids as [Hn Hl].
      destruct (negb (nodeId n =? nodeId node)%nat); [|now apply IH].
      cbn [map]. apply NoDup_cons. split; [|now apply IH].
      intros Hin. apply Hn. apply list_elem_of_In in Hin. apply list_elem_of_In.
      apply in_map_iff in Hin. destruct Hin as (n' & Hid & Hn').
      apply filter_In in Hn'. apply in_map_iff. exists n'. now split.
    + apply List.Forall_forall. intros n Hn. apply filter_In in Hn.
      rewrite List.Forall_forall in Hbound. now apply Hbound.
Qed.

Lemma filter_keeps_all {A : Type} (f : A -> bool) (l : list A) :
  (forall x, In x l -> f x = true) -> List.filter f l = l.
Proof.
  induction l as [|x l IH]; intros Hall; [reflexivity|].
  cbn [List.filter]. rewrite (Hall x (or_introl eq_refl)). f_equal.
  apply IH. intros y Hy. apply Hall. now right.
Qed.

(** X27. The controller nodes stay distinct objects through every call,
    so removing a node takes out that node and no other; and a
    controller that equals none in the tree, once added and then
    removed, leaves the nodes as they were. *)
Theorem removeController_removes_one (p : ArcProvider) (calls : list ArcCall) :
  arc_ok p ->
  arc_ok (arc_calls calls p)
  /\ (forall node, In node (_controllerNodes p) ->
        ~ In node (_controllerNodes (removeController node p))
        /\ length (_controllerNodes (removeController node p))
           = pred (length (_controllerNodes p))
        /\ forall other, In other (_controllerNodes p) -> other <> node ->
                         In other (_controllerNodes (removeController node p)))
  /\ (forall m password refreshTree,
        update_found m (_controllerNodes p) = None ->
        _controllerNodes
          (removeController {| nodeId := nextNodeId p; model := m |}
             (addOrUpdateController m password refreshTree true p))
        = _controllerNodes p).
Proof.
  intros Hok. split; [|split].
  - unfold arc_calls. revert p Hok. induction calls as [|c calls IH]; intros p Hok;
      [exact Hok|].
    cbn [fold_left]. apply IH. now apply arc_call_ok.
  - destruct Hok as [Hids Hbound]. intros node Hnode.
    cbn [removeController saveControllers fire set_controllerNodes _controllerNodes].
    split; [|split].
    + intros Hin. apply filter_In in Hin. destruct Hin as [_ Hne].
      now rewrite Nat.eqb_refl in Hne.
    + clear Hbound. induction (_controllerNodes p) as [|n l IH]; [destruct Hnode|].
      cbn [map] in Hids. apply NoDup_cons in Hids. destruct Hids as [Hn Hl].
      cbn [List.filter length pred]. destruct Hnode as [->|Hin].
      * rewrite Nat.eqb_refl. cbn [negb]. f_equal. apply filter_keeps_all.
        intros n' Hn'. apply negb_true_iff, Nat.eqb_neq. intros Heq.
        apply Hn. rewrite <- Heq. apply list_elem_of_In. now apply in_map.
      * destruct (Nat.eqb_spec (nodeId n) (nodeId node)) as [Heq|Hne]; cbn [negb length].
        { exfalso. apply Hn. rewrite Heq. apply list_elem_of_In. now apply in_map. }
        rewrite (IH Hl Hin). destruct l; [destruct Hin | reflexivity].
    + intros other Hother Hne. apply filter_In. split; [exact Hother|].
      apply negb_true_iff, Nat.eqb_neq. intros Heq. apply Hne.
      clear Hbound. induction (_controllerNodes p) as [|n l IH]; [destruct Hnode|].
      cbn [map] in Hids. apply NoDup_cons in Hids. destruct Hids as [Hn Hl].
      destruct Hnode as [->|Hnode], Hother as [->|Hother]; auto.
      * exfalso. apply Hn. rewrite <- Heq. apply list_elem_of_In. now apply in_map.
      * exfalso. apply Hn. rewrite Heq. apply list_elem_of_In. now apply in_map.
  - destruct Hok as [Hids Hbound]. intros m password refreshTree Hnone.
    unfold addOrUpdateController. rewrite Hnone.
    destruct refreshTree;
      cbn [removeController saveControllers fire updatePassword set_controllerNodes
           _controllerNodes nodeId];
      rewrite List.filter_app; cbn [List.filter nodeId]; rewrite Nat.eqb_refl;
      cbn [negb]; rewrite app_nil_r;
      apply filter_keeps_all; intros n Hn;
      rewrite List.Forall_forall in Hbound; specialize (Hbound n Hn);
      apply negb_true_iff, Nat.eqb_neq; lia.
Qed.
End ArcMore.

Lemma removeController_removes_one_witness :
  arc_ok demo_arc_provider
  /\ arc_ok
       (arc_calls (H:=demo_arc_host)
          [CallRemoveController
             {| nodeId := 0;
                model := {| info := {| url := "https://arc"; username := "admin";
                                       rememberPassword := true |} |} |};
           CallAddOrUpdateController
             {| info := {| url := "https://arc3"; username := "dev";
                           rememberPassword := true |} |} "secret" true true]
          demo_arc_provider).
Proof.
  assert (Hok : arc_ok demo_arc_provider).
  { split; cbn; repeat constructor; rewrite list_elem_of_In; cbn; lia. }
  split; [exact Hok|].
  apply (removeController_removes_one (H:=demo_arc_host) demo_arc_provider _ Hok).
Defined.
